(** * Pardinho: the shopping-list store of [src/App.tsx]

    The component [App] owns six pieces of React state ([items],
    [archivedItems], [editingItem], [alert], [showArchived], [newItem]) and
    a handful of event handlers that replace them.  Every handler runs to
    completion on the state of the render it was created in, so a handler is
    embedded as a function from the store before the event to the store
    after it.

    Data is kept as the code has it:
    - a JavaScript [number] that holds a price or a quantity is an IEEE 754
      binary64 value, here Rocq's primitive [float];
    - an [id] is the result of [Date.now()], an integral number of
      milliseconds, here a [Z]; the clock is not part of the store, so the
      value it returns is an argument of [addItem];
    - a JavaScript string is a [string]; [!s] holds exactly for the empty
      string; [String.prototype.toLowerCase] belongs to the language
      runtime and is a parameter of the development. *)

From Stdlib Require Import List String Ascii ZArith Bool Lia Floats.
From Stdlib Require Import Permutation Sorted.
Import ListNotations.

(** ** Data model *)

(** [interface Item] (App.tsx, lines 4-11). *)
Module Item.
Record t : Type := mk {
  id : Z;
  nome : string;
  quantidade : float;
  preco : float;
  categoria : string;
  sugeridoPor : string
}.
End Item.

(** [Omit<Item, 'id'>], the type of the new-item form (line 31). *)
Module Draft.
Record t : Type := mk {
  nome : string;
  quantidade : float;
  preco : float;
  categoria : string;
  sugeridoPor : string
}.
End Draft.

(** The six [useState] cells of [App] (lines 26-37). *)
Record Store : Type := mkStore {
  items : list Item.t;
  archivedItems : list Item.t;
  editingItem : option Item.t;
  alert : option string;
  showArchived : bool;
  newItem : Draft.t
}.

(** The initial value of [newItem], also the value [addItem] resets it to. *)
Definition defaultDraft : Draft.t :=
  Draft.mk EmptyString 1%float 0%float EmptyString EmptyString.

(** The store of the first render. *)
Definition initialStore : Store :=
  mkStore [] [] None None false defaultDraft.

(** The state setters: each replaces one cell and keeps the others. *)
Definition setItems (l : list Item.t) (s : Store) : Store :=
  mkStore l (archivedItems s) (editingItem s) (alert s) (showArchived s) (newItem s).

Definition setArchivedItems (l : list Item.t) (s : Store) : Store :=
  mkStore (items s) l (editingItem s) (alert s) (showArchived s) (newItem s).

Definition setEditingItem (e : option Item.t) (s : Store) : Store :=
  mkStore (items s) (archivedItems s) e (alert s) (showArchived s) (newItem s).

Definition setAlert (a : option string) (s : Store) : Store :=
  mkStore (items s) (archivedItems s) (editingItem s) a (showArchived s) (newItem s).

Definition setShowArchived (b : bool) (s : Store) : Store :=
  mkStore (items s) (archivedItems s) (editingItem s) (alert s) b (newItem s).

Definition setNewItem (d : Draft.t) (s : Store) : Store :=
  mkStore (items s) (archivedItems s) (editingItem s) (alert s) (showArchived s) d.

(** [{ ...newItem, id: now }] (line 59). *)
Definition withId (now : Z) (d : Draft.t) : Item.t :=
  Item.mk now (Draft.nome d) (Draft.quantidade d) (Draft.preco d)
          (Draft.categoria d) (Draft.sugeridoPor d).

(** The three alert texts (lines 46, 55 and 89). *)
Definition msgValidation : string := "Por favor, preencha o nome e o preço do item.".
Definition msgDuplicate : string := "Este item já existe na lista!".
Definition msgDuplicateEdit : string := "Já existe outro item com este nome!".

(** [showAlert] (lines 39-42) sets the alert; the timer it starts is the
    event [EvAlertTimeout] below, which the environment may fire later. *)
Definition showAlert (message : string) (s : Store) : Store :=
  setAlert (Some message) s.

(** [Math.max(a, b)]: NaN if either argument is NaN, and [+0] is larger
    than [-0]. *)
Definition Math_max (a b : float) : float :=
  if PrimFloat.is_nan a || PrimFloat.is_nan b then PrimFloat.nan
  else if PrimFloat.ltb a b then b
  else if PrimFloat.ltb b a then a
  else if PrimFloat.get_sign a then b else a.

(** A lower-casing of the ASCII letters, used to run the handlers on
    concrete names. *)
Definition lowerAscii (c : ascii) : ascii :=
  let n := nat_of_ascii c in
  if (65 <=? n)%nat && (n <=? 90)%nat then ascii_of_nat (n + 32) else c.

Fixpoint asciiToLowerCase (s : string) : string :=
  match s with
  | EmptyString => EmptyString
  | String c r => String (lowerAscii c) (asciiToLowerCase r)
  end.

(** ** The event handlers *)

(** What an [onChange] handler of either form writes (lines 173-219 and
    243-276).  The numeric fields carry [Number(e.target.value)]. *)
Inductive Change : Type :=
| ChNome (v : string)
| ChQuantidade (n : float)
| ChPreco (n : float)
| ChCategoria (v : string)
| ChSugeridoPor (v : string).

(** [setNewItem({ ...newItem, field: value })]; the quantity is clamped by
    [Math.max(1, _)], the price is not. *)
Definition changeDraft (c : Change) (d : Draft.t) : Draft.t :=
  match c with
  | ChNome v =>
      Draft.mk v (Draft.quantidade d) (Draft.preco d) (Draft.categoria d) (Draft.sugeridoPor d)
  | ChQuantidade n =>
      Draft.mk (Draft.nome d) (Math_max 1%float n) (Draft.preco d) (Draft.categoria d)
               (Draft.sugeridoPor d)
  | ChPreco n =>
      Draft.mk (Draft.nome d) (Draft.quantidade d) n (Draft.categoria d) (Draft.sugeridoPor d)
  | ChCategoria v =>
      Draft.mk (Draft.nome d) (Draft.quantidade d) (Draft.preco d) v (Draft.sugeridoPor d)
  | ChSugeridoPor v =>
      Draft.mk (Draft.nome d) (Draft.quantidade d) (Draft.preco d) (Draft.categoria d) v
  end.

(** [setEditingItem({ ...editingItem, field: value })]: the id is kept. *)
Definition changeItem (c : Change) (e : Item.t) : Item.t :=
  match c with
  | ChNome v =>
      Item.mk (Item.id e) v (Item.quantidade e) (Item.preco e) (Item.categoria e)
              (Item.sugeridoPor e)
  | ChQuantidade n =>
      Item.mk (Item.id e) (Item.nome e) (Math_max 1%float n) (Item.preco e) (Item.categoria e)
              (Item.sugeridoPor e)
  | ChPreco n =>
      Item.mk (Item.id e) (Item.nome e) (Item.quantidade e) n (Item.categoria e)
              (Item.sugeridoPor e)
  | ChCategoria v =>
      Item.mk (Item.id e) (Item.nome e) (Item.quantidade e) (Item.preco e) v
              (Item.sugeridoPor e)
  | ChSugeridoPor v =>
      Item.mk (Item.id e) (Item.nome e) (Item.quantidade e) (Item.preco e) (Item.categoria e) v
  end.

Definition changeNewItem (c : Change) (s : Store) : Store :=
  setNewItem (changeDraft c (newItem s)) s.

(** The edit form exists only while an item is being edited. *)
Definition changeEditingItem (c : Change) (s : Store) : Store :=
  match editingItem s with
  | Some e => setEditingItem (Some (changeItem c e)) s
  | None => s
  end.

(** [archiveItem] (lines 69-75): [find] takes the first item with the id,
    [filter] drops every item with the id. *)
Definition archiveItem (id : Z) (s : Store) : Store :=
  match find (fun i => Item.id i =? id)%Z (items s) with
  | Some item =>
      setItems (filter (fun i => negb (Item.id i =? id)%Z) (items s))
               (setArchivedItems (archivedItems s ++ [item]) s)
  | None => s
  end.

(** [startEditing] (lines 77-79). *)
Definition startEditing (item : Item.t) (s : Store) : Store :=
  setEditingItem (Some item) s.

(** [cancelEdit] (lines 100-102). *)
Definition cancelEdit (s : Store) : Store :=
  setEditingItem None s.

(** One term of the total: [item.preco * item.quantidade]. *)
Definition lineTotal (item : Item.t) : float :=
  PrimFloat.mul (Item.preco item) (Item.quantidade item).

(** [calculateTotal] (lines 104-106): [reduce] from the left, starting at 0. *)
Definition calculateTotal (s : Store) : float :=
  fold_left (fun total item => PrimFloat.add total (lineTotal item)) (items s) 0%float.

(** The events the rendered view can raise, and the alert timer. *)
Inductive Event : Type :=
| EvChangeNewItem (c : Change)
| EvAddItem (now : Z)
| EvArchiveItem (id : Z)
| EvStartEditing (item : Item.t)
| EvChangeEditingItem (c : Change)
| EvSaveEdit
| EvCancelEdit
| EvToggleArchived
| EvAlertTimeout.

(** A condition on the clock: which values [Date.now()] may return in a
    given store. *)
Definition Clock : Type := Store -> Z -> Prop.

(** Any value at all. *)
Definition anyClock : Clock := fun _ _ => True.

(** A value that is not the id of an active item. *)
Definition freshClock : Clock :=
  fun s now => ~ In now (map Item.id (items s)).

(** A value that is not the id of any item of the store. *)
Definition unusedClock : Clock :=
  fun s now => ~ In now (map Item.id (items s ++ archivedItems s)).

(** A value later than the id of every item of the store. *)
Definition laterClock : Clock :=
  fun s now => forall i, In i (items s ++ archivedItems s) -> (Item.id i < now)%Z.

(** No two items of the list have the same id. *)
Definition idsUnique (l : list Item.t) : Prop :=
  NoDup (map Item.id l).

(** How the two lists after an event stand to the two lists before it:
    [addItem] at most appends one item, stamped with the clock value;
    [archiveItem] only moves items as they are; [saveEdit] keeps, place by
    place, the ids of the active list; no other event touches the lists. *)
Definition idsKept (ev : Event) (s s' : Store) : Prop :=
  match ev with
  | EvAddItem now =>
      archivedItems s' = archivedItems s
      /\ (items s' = items s \/ items s' = items s ++ [withId now (newItem s)])
  | EvArchiveItem _ =>
      incl (items s') (items s)
      /\ exists moved, archivedItems s' = archivedItems s ++ moved /\ incl moved (items s)
  | EvSaveEdit =>
      map Item.id (items s') = map Item.id (items s)
      /\ archivedItems s' = archivedItems s
  | _ => items s' = items s /\ archivedItems s' = archivedItems s
  end.

(** The draft fails the first check of [addItem]. *)
Definition invalidDraft (d : Draft.t) : Prop :=
  Draft.nome d = EmptyString \/ PrimFloat.leb (Draft.preco d) 0%float = true.

(** The sum of a list of numbers taken from its last element to its
    first: [sumBackwards [c; b; a] = ((0 + a) + b) + c]. *)
Fixpoint sumBackwards (l : list float) : float :=
  match l with
  | [] => 0%float
  | x :: r => PrimFloat.add (sumBackwards r) x
  end.

(** The sum of a list of numbers taken in list order from 0:
    [sumInOrder [a; b; c] = ((0 + a) + b) + c]. *)
Definition sumInOrder (l : list float) : float :=
  sumBackwards (rev l).

Section Handlers.

(** [String.prototype.toLowerCase]. *)
Variable toLowerCase : string -> string.

(** [a.toLowerCase() === b.toLowerCase()]. *)
Definition sameName (a b : string) : bool :=
  (toLowerCase a =? toLowerCase b)%string.

(** [addItem] (lines 44-67); [now] is the value of [Date.now()]. *)
Definition addItem (now : Z) (s : Store) : Store :=
  if (Draft.nome (newItem s) =? EmptyString)%string
     || PrimFloat.leb (Draft.preco (newItem s)) 0%float
  then showAlert msgValidation s
  else
    let itemExists :=
      existsb (fun item => sameName (Item.nome item) (Draft.nome (newItem s))) (items s) in
    if itemExists then showAlert msgDuplicate s
    else setNewItem defaultDraft (setItems (items s ++ [withId now (newItem s)]) s).

(** [saveEdit] (lines 81-98). *)
Definition saveEdit (s : Store) : Store :=
  match editingItem s with
  | Some e =>
      let itemExists :=
        existsb (fun item => negb (Item.id item =? Item.id e)%Z
                             && sameName (Item.nome item) (Item.nome e)) (items s) in
      if itemExists then showAlert msgDuplicateEdit s
      else setEditingItem None
             (setItems (map (fun item => if (Item.id item =? Item.id e)%Z then e else item)
                            (items s)) s)
  | None => s
  end.

(** ** The store as a transition system *)

Definition dispatch (ev : Event) (s : Store) : Store :=
  match ev with
  | EvChangeNewItem c => changeNewItem c s
  | EvAddItem now => addItem now s
  | EvArchiveItem id => archiveItem id s
  | EvStartEditing item => startEditing item s
  | EvChangeEditingItem c => changeEditingItem c s
  | EvSaveEdit => saveEdit s
  | EvCancelEdit => cancelEdit s
  | EvToggleArchived => setShowArchived (negb (showArchived s)) s
  | EvAlertTimeout => setAlert None s
  end.

(** The store after a sequence of events, oldest first. *)
Definition run (evs : list Event) (s : Store) : Store :=
  fold_left (fun st ev => dispatch ev st) evs s.

(** The stores reachable from the first render when the clock obeys [ok]. *)
Inductive reachable (ok : Clock) : Store -> Prop :=
| reach_init : reachable ok initialStore
| reach_step : forall s ev,
    reachable ok s ->
    (forall now, ev = EvAddItem now -> ok s now) ->
    reachable ok (dispatch ev s).

(** The clock obeys [ok] at every [addItem] of a sequence of events. *)
Fixpoint clockAlong (ok : Clock) (evs : list Event) (s : Store) : Prop :=
  match evs with
  | [] => True
  | ev :: rest =>
      (forall now, ev = EvAddItem now -> ok s now) /\ clockAlong ok rest (dispatch ev s)
  end.

(** Two names are equal under case-insensitive comparison. *)
Definition sameNameP (a b : string) : Prop :=
  toLowerCase a = toLowerCase b.

(** The name collides with the name of an item of the list. *)
Definition collides (name : string) (l : list Item.t) : Prop :=
  exists item, In item l /\ sameNameP (Item.nome item) name.

(** The name collides with the name of an item of the list other than the
    one with id [self]. *)
Definition collidesWithOther (self : Z) (name : string) (l : list Item.t) : Prop :=
  exists item, In item l /\ Item.id item <> self /\ sameNameP (Item.nome item) name.

(** No two items of the list have names equal under case-insensitive
    comparison. *)
Definition namesUnique (l : list Item.t) : Prop :=
  NoDup (map (fun i => toLowerCase (Item.nome i)) l).

End Handlers.

(** The list [saveEdit] writes: every item with the id of [e] replaced by
    [e] (lines 93-95). *)
Definition replaceById (e : Item.t) (l : list Item.t) : list Item.t :=
  map (fun item => if (Item.id item =? Item.id e)%Z then e else item) l.

(** ** The view: which events it offers *)

(** [CATEGORIAS] (lines 13-23). *)
Definition CATEGORIAS : list string :=
  ["Bebidas"; "Comidas"; "Café da Manhã"; "Lanches"; "Frutas e Verduras";
   "Carnes"; "Higiene"; "Limpeza"; "Outros"]%string.

(** The values of the options of either category [select]: the empty
    value of "Selecione uma categoria" and the categories (lines 206-209
    and 267-270). *)
Definition categoryOptions : list string :=
  EmptyString :: CATEGORIAS.

(** What a form control can write: a [select] only one of its options. *)
Definition offeredChange (c : Change) : Prop :=
  match c with
  | ChCategoria v => In v categoryOptions
  | _ => True
  end.

(** [editingItem?.id === item.id] (line 236): the card of [item] is drawn
    as the edit form. *)
Definition underEdit (s : Store) (item : Item.t) : bool :=
  match editingItem s with
  | Some e => (Item.id e =? Item.id item)%Z
  | None => false
  end.

(** The events the rendered view offers in a store (lines 143-314).  The
    toggle is always there.  The new-item form and the cards of the active
    list are drawn only while [showArchived] is false; a card that is not
    under edit has the edit and archive buttons of its item, a card under
    edit has the edit form with its save and cancel buttons.  The archived
    cards have no buttons.  The alert timer may run at any time. *)
Definition offered (s : Store) (ev : Event) : Prop :=
  match ev with
  | EvToggleArchived => True
  | EvAlertTimeout => True
  | EvChangeNewItem c => showArchived s = false /\ offeredChange c
  | EvAddItem _ => showArchived s = false
  | EvStartEditing item =>
      showArchived s = false /\ In item (items s) /\ underEdit s item = false
  | EvArchiveItem id =>
      showArchived s = false
      /\ exists item, In item (items s) /\ underEdit s item = false /\ Item.id item = id
  | EvChangeEditingItem c =>
      showArchived s = false /\ offeredChange c
      /\ exists item, In item (items s) /\ underEdit s item = true
  | EvSaveEdit | EvCancelEdit =>
      showArchived s = false
      /\ exists item, In item (items s) /\ underEdit s item = true
  end.

(** A quantity that [Math.max(1, _)] can have produced: not below 1, or
    NaN. *)
Definition quantityOk (q : float) : Prop :=
  PrimFloat.is_nan q = true \/ PrimFloat.leb 1%float q = true.

(** ** The alert and its timer *)

(** The store together with the pending [setTimeout] callbacks of
    [showAlert], each given by the time, in milliseconds, from which it may
    run.  Every callback is [() => setAlert(null)]. *)
Record Timed : Type := mkTimed {
  store : Store;
  timers : list Z
}.

(** [showAlert] (lines 39-42) called when the clock shows [now]: the alert
    is set and a callback is scheduled for 3000 ms later.  No pending
    callback is cancelled. *)
Definition showAlertAt (now : Z) (message : string) (t : Timed) : Timed :=
  mkTimed (showAlert message (store t)) (timers t ++ [(now + 3000)%Z]).

(** The clock reaches [now]: the callbacks due by then run and are gone. *)
Definition runDue (now : Z) (t : Timed) : Timed :=
  if existsb (fun due => (due <=? now)%Z) (timers t)
  then mkTimed (setAlert None (store t))
               (filter (fun due => negb (due <=? now)%Z) (timers t))
  else t.

Section View.

Variable toLowerCase : string -> string.

(** The stores the view can reach from the first render, whatever the
    clock shows. *)
Inductive viewReachable : Store -> Prop :=
| view_init : viewReachable initialStore
| view_step : forall s ev,
    viewReachable s -> offered s ev -> viewReachable (dispatch toLowerCase ev s).

(** The view offers every event of a sequence in the store it meets. *)
Fixpoint offeredAlong (evs : list Event) (s : Store) : Prop :=
  match evs with
  | [] => True
  | ev :: rest => offered s ev /\ offeredAlong rest (dispatch toLowerCase ev s)
  end.

End View.

(** The fields of an item that only a clamped input or a [select] writes. *)
Definition itemOk (i : Item.t) : Prop :=
  quantityOk (Item.quantidade i) /\ In (Item.categoria i) categoryOptions.

Definition draftOk (d : Draft.t) : Prop :=
  quantityOk (Draft.quantidade d) /\ In (Draft.categoria d) categoryOptions.

Definition storeOk (s : Store) : Prop :=
  draftOk (newItem s)
  /\ (forall e, editingItem s = Some e -> itemOk e)
  /\ Forall itemOk (items s)
  /\ Forall itemOk (archivedItems s).

(** The item under edit is an item of the active list. *)
Definition editingActive (s : Store) : Prop :=
  forall e, editingItem s = Some e ->
            exists item, In item (items s) /\ Item.id item = Item.id e.

(** ** Sample sessions *)

(** Typing a name, a quantity and a price into the new-item form. *)
Definition fillDraft (name : string) (qty price : float) : list Event :=
  [EvChangeNewItem (ChNome name); EvChangeNewItem (ChQuantidade qty);
   EvChangeNewItem (ChPreco price)].

(** Milk is added, then milk in lower case is tried. *)
Definition milkSession : list Event :=
  fillDraft "Milk" 2%float 3.5%float ++ [EvAddItem 1000]
  ++ fillDraft "milk" 1%float 1%float ++ [EvAddItem 2000].

(** Bread is added and archived, then added again. *)
Definition breadSession : list Event :=
  fillDraft "Bread" 1%float 5%float ++ [EvAddItem 1000; EvArchiveItem 1000]
  ++ fillDraft "Bread" 1%float 5%float ++ [EvAddItem 2000].

(** ... and archived again. *)
Definition breadArchivedTwice : list Event :=
  breadSession ++ [EvArchiveItem 2000].

(** Milk is added and bread is typed in. *)
Definition breadTyped : list Event :=
  fillDraft "Milk" 2%float 3.5%float ++ [EvAddItem 1000]
  ++ fillDraft "Bread" 1%float 5%float.

(** Milk and bread are added while the clock shows the same millisecond. *)
Definition sameTickSession : list Event :=
  fillDraft "Milk" 2%float 3.5%float ++ [EvAddItem 1000]
  ++ fillDraft "Bread" 1%float 5%float ++ [EvAddItem 1000].

Definition milkItem : Item.t :=
  Item.mk 1000 "Milk" 2%float 3.5%float EmptyString EmptyString.

Definition breadItem : Item.t :=
  Item.mk 1000 "Bread" 1%float 5%float EmptyString EmptyString.

(** ... and then the milk card is opened for editing. *)
Definition sameTickEditing : list Event :=
  sameTickSession ++ [EvStartEditing milkItem].

(** Milk and bread are added a second apart. *)
Definition twoItems : list Event :=
  fillDraft "Milk" 2%float 3.5%float ++ [EvAddItem 1000]
  ++ fillDraft "Bread" 1%float 5%float ++ [EvAddItem 2000].

Definition laterBread : Item.t :=
  Item.mk 2000 "Bread" 1%float 5%float EmptyString EmptyString.

(** ... then the bread card is opened and its name typed over as MILK. *)
Definition renameToMilk : list Event :=
  twoItems ++ [EvStartEditing laterBread; EvChangeEditingItem (ChNome "MILK")].

(** ... or as a bread roll, with a price below zero. *)
Definition renameToRoll : list Event :=
  twoItems ++ [EvStartEditing laterBread; EvChangeEditingItem (ChNome "Bread roll");
               EvChangeEditingItem (ChPreco (-1)%float)].

(** ... or the milk card is opened and renamed, and the milk is archived
    before the edit is saved. *)
Definition archivedWhileEditing : list Event :=
  twoItems ++ [EvStartEditing milkItem; EvChangeEditingItem (ChNome "Oat milk");
               EvArchiveItem 1000].

(** A session driven through the view: milk is typed in with a quantity
    of 0 and the category of drinks, added, its card opened, the quantity
    typed over as 3, saved, and the item archived. *)
Definition viewSession : list Event :=
  [EvChangeNewItem (ChNome "Milk"); EvChangeNewItem (ChQuantidade 0%float);
   EvChangeNewItem (ChPreco 3.5%float); EvChangeNewItem (ChCategoria "Bebidas");
   EvAddItem 1000;
   EvStartEditing (Item.mk 1000 "Milk" 1%float 3.5%float "Bebidas" EmptyString);
   EvChangeEditingItem (ChQuantidade 3%float); EvSaveEdit;
   EvToggleArchived; EvToggleArchived;
   EvArchiveItem 1000].

(** ... up to the moment the card is open and changed. *)
Definition viewEditing : list Event :=
  firstn 7 viewSession.

(** Milk and bread are in the list and a dozen eggs are typed in. *)
Definition eggsTyped : list Event :=
  twoItems ++ fillDraft "Eggs" 12%float 0.5%float.

(** The first render, with no callback pending. *)
Definition firstRender : Timed :=
  mkTimed initialStore [].

(** ** Tactics for concrete sessions *)

(** Splits [clockAlong] over a concrete session and leaves, for each
    [addItem] of the session, the condition on its clock value to [tac]. *)
Ltac clock_along tac :=
  simpl;
  repeat match goal with
    | |- _ /\ _ => split
    | |- True => exact I
    | |- forall now, _ = EvAddItem now -> _ =>
        let n := fresh "now" in
        let H := fresh "Hev" in
        intros n H; first [discriminate H | injection H as <-; tac]
    end.

Ltac fresh_here :=
  let H := fresh "Hin" in
  unfold freshClock; vm_compute; intros H;
  repeat (destruct H as [H|H]; [discriminate H|]);
  exact H.

Ltac later_here :=
  let i := fresh "i" in
  let Hin := fresh "Hin" in
  intros i Hin; vm_compute in Hin;
  repeat (destruct Hin as [<-|Hin]; [reflexivity|]);
  destruct Hin.

(** Settles, for a concrete session, that the view offers each event. *)
Ltac view_along :=
  simpl;
  repeat match goal with
    | |- _ /\ _ => split
    | |- True => exact I
    | |- exists _, _ => eexists
    | |- _ \/ _ => first [left; vm_compute; reflexivity | right]
    | |- _ = _ => vm_compute; reflexivity
    end.

(** Settles that a concrete list of ids or names has no repetition. *)
Ltac nodup_here :=
  vm_compute;
  repeat (constructor;
          [ let H := fresh "Hin" in
            intros H; repeat (destruct H as [H|H]; [discriminate H|]); exact H
          | ]);
  constructor.

(** ** Lists: what [some], [find], [filter] and [map] do to distinctness *)

Section ListFacts.

Variables A B : Type.
Variable f : A -> B.

Lemma in_map_filter (p : A -> bool) (l : list A) (b : B) :
  In b (map f (filter p l)) -> In b (map f l).
Proof.
  rewrite !in_map_iff. intros (x & Hx & Hin).
  apply filter_In in Hin. exists x. tauto.
Qed.

Lemma NoDup_map_filter (p : A -> bool) (l : list A) :
  NoDup (map f l) -> NoDup (map f (filter p l)).
Proof.
  induction l as [|a l IH]; simpl; intros H; [constructor|].
  inversion H as [|? ? Hnot Hrest]; subst.
  destruct (p a); simpl; auto.
  constructor; auto.
  intros Hin. apply Hnot. eapply in_map_filter; eassumption.
Qed.

Lemma NoDup_map_snoc (l : list A) (x : A) :
  NoDup (map f l) -> ~ In (f x) (map f l) -> NoDup (map f (l ++ [x])).
Proof.
  intros Hl Hx. rewrite map_app. simpl.
  apply NoDup_app.
  - assumption.
  - repeat constructor. intros [].
  - intros b Hb [<-|[]]. auto.
Qed.

End ListFacts.

(** ** Looking items up by id *)

Lemma find_by_id_split (x : Z) (l : list Item.t) (item : Item.t) :
  find (fun i => Item.id i =? x)%Z l = Some item ->
  exists l1 l2, l = l1 ++ item :: l2 /\ Item.id item = x
                /\ forall j, In j l1 -> Item.id j <> x.
Proof.
  induction l as [|a l IH]; simpl; [discriminate|].
  destruct (Z.eqb_spec (Item.id a) x) as [Heq|Hne].
  - intros [= ->]. exists [], l. simpl. repeat split; auto.
  - intros H. destruct (IH H) as (l1 & l2 & -> & Hid & Hl1).
    exists (a :: l1), l2. simpl. repeat split; auto.
    intros j [<-|Hj]; auto.
Qed.

Lemma find_by_id_none (x : Z) (l : list Item.t) :
  find (fun i => Item.id i =? x)%Z l = None <-> (forall j, In j l -> Item.id j <> x).
Proof.
  induction l as [|a l IH]; simpl.
  - split; [intros _ j [] | reflexivity].
  - destruct (Z.eqb_spec (Item.id a) x) as [Heq|Hne].
    + split; [discriminate|]. intros H. exfalso. apply (H a); auto.
    + rewrite IH. split.
      * intros H j [<-|Hj]; auto.
      * intros H j Hj. apply H. now right.
Qed.

Lemma filter_other_ids_all (x : Z) (l : list Item.t) :
  (forall j, In j l -> Item.id j <> x) ->
  filter (fun i => negb (Item.id i =? x)%Z) l = l.
Proof.
  induction l as [|a l IH]; simpl; intros H; [reflexivity|].
  destruct (Z.eqb_spec (Item.id a) x) as [Heq|Hne]; simpl.
  - exfalso. apply (H a); auto.
  - f_equal. apply IH. intros j Hj. apply H. now right.
Qed.

Lemma filter_other_ids_none (x : Z) (l : list Item.t) (j : Item.t) :
  In j (filter (fun i => negb (Item.id i =? x)%Z) l) -> In j l /\ Item.id j <> x.
Proof.
  rewrite filter_In. intros [Hin Hb]. split; [assumption|].
  apply negb_true_iff in Hb. now apply Z.eqb_neq.
Qed.

(** With distinct ids the filter of [archiveItem] removes one item. *)
Lemma filter_unique_id (l1 l2 : list Item.t) (item : Item.t) :
  idsUnique (l1 ++ item :: l2) ->
  filter (fun i => negb (Item.id i =? Item.id item)%Z) (l1 ++ item :: l2) = l1 ++ l2.
Proof.
  unfold idsUnique. rewrite map_app. simpl. intros H.
  assert (Hnot : ~ In (Item.id item) (map Item.id l1 ++ map Item.id l2))
    by (apply NoDup_remove_2; assumption).
  rewrite filter_app. simpl. rewrite Z.eqb_refl. simpl.
  rewrite !filter_other_ids_all; auto.
  - intros j Hj Heq. apply Hnot, in_or_app. right. rewrite <- Heq. now apply in_map.
  - intros j Hj Heq. apply Hnot, in_or_app. left. rewrite <- Heq. now apply in_map.
Qed.

Lemma in_unique_id_find (l : list Item.t) (item : Item.t) :
  idsUnique l -> In item l ->
  find (fun i => Item.id i =? Item.id item)%Z l = Some item.
Proof.
  unfold idsUnique.
  induction l as [|a l IH]; simpl; intros Hnd Hin; [contradiction|].
  inversion Hnd as [|? ? Hnot Hrest]; subst.
  destruct Hin as [->|Hin].
  - now rewrite Z.eqb_refl.
  - destruct (Z.eqb_spec (Item.id a) (Item.id item)) as [Heq|Hne]; auto.
    exfalso. apply Hnot. rewrite Heq. now apply in_map.
Qed.

(** ** Replacing items by id, as [saveEdit] does *)

Lemma replaceById_ids (e : Item.t) (l : list Item.t) :
  map Item.id (replaceById e l) = map Item.id l.
Proof.
  unfold replaceById. rewrite map_map. apply map_ext.
  intros a. destruct (Z.eqb_spec (Item.id a) (Item.id e)); congruence.
Qed.

Lemma replaceById_absent (e : Item.t) (l : list Item.t) :
  (forall j, In j l -> Item.id j <> Item.id e) -> replaceById e l = l.
Proof.
  unfold replaceById. induction l as [|a l IH]; simpl; intros H; [reflexivity|].
  destruct (Z.eqb_spec (Item.id a) (Item.id e)) as [Heq|Hne].
  - exfalso. apply (H a); auto.
  - f_equal. apply IH. intros j Hj. apply H. now right.
Qed.

Lemma replaceById_nth (e : Item.t) (l : list Item.t) (n : nat) (item : Item.t) :
  nth_error l n = Some item ->
  nth_error (replaceById e l) n
  = Some (if (Item.id item =? Item.id e)%Z then e else item).
Proof.
  intros H. unfold replaceById. rewrite nth_error_map, H. reflexivity.
Qed.

(** ** Ascending ids *)

Lemma sorted_snoc (l : list Z) (y : Z) :
  StronglySorted Z.lt l -> (forall x, In x l -> (x < y)%Z) ->
  StronglySorted Z.lt (l ++ [y]).
Proof.
  induction l as [|a l IH]; simpl; intros Hs Hlt.
  - repeat constructor.
  - inversion Hs as [|? ? Hrest Hall]; subst. constructor.
    + apply IH; auto.
    + apply Forall_app. split; [assumption|]. constructor; auto.
Qed.

Lemma sorted_ids_filter (p : Item.t -> bool) (l : list Item.t) :
  StronglySorted Z.lt (map Item.id l) ->
  StronglySorted Z.lt (map Item.id (filter p l)).
Proof.
  induction l as [|a l IH]; simpl; intros Hs; [constructor|].
  inversion Hs as [|? ? Hrest Hall]; subst.
  destruct (p a); simpl; auto.
  constructor; auto.
  rewrite Forall_forall in *. intros x Hx. apply Hall.
  eapply in_map_filter; eassumption.
Qed.

(** ** The handlers, case by case *)

Section HandlerFacts.

Variable toLowerCase : string -> string.

Lemma invalidDraft_test (d : Draft.t) :
  ((Draft.nome d =? EmptyString)%string || PrimFloat.leb (Draft.preco d) 0%float) = true
  <-> invalidDraft d.
Proof.
  unfold invalidDraft. rewrite orb_true_iff, String.eqb_eq. reflexivity.
Qed.

Lemma collides_test (name : string) (l : list Item.t) :
  existsb (fun item => sameName toLowerCase (Item.nome item) name) l = true
  <-> collides toLowerCase name l.
Proof.
  unfold collides, sameNameP, sameName. rewrite existsb_exists.
  split; intros (item & Hin & H); exists item; split; auto;
    now apply String.eqb_eq.
Qed.

Lemma collidesWithOther_test (e : Item.t) (l : list Item.t) :
  existsb (fun item => negb (Item.id item =? Item.id e)%Z
                       && sameName toLowerCase (Item.nome item) (Item.nome e)) l = true
  <-> collidesWithOther toLowerCase (Item.id e) (Item.nome e) l.
Proof.
  unfold collidesWithOther, sameNameP, sameName. rewrite existsb_exists.
  split.
  - intros (item & Hin & H). apply andb_true_iff in H. destruct H as [Hid Hn].
    exists item. repeat split; auto.
    + apply negb_true_iff in Hid. now apply Z.eqb_neq.
    + now apply String.eqb_eq.
  - intros (item & Hin & Hid & Hn). exists item. split; auto.
    apply andb_true_iff. split.
    + apply negb_true_iff. now apply Z.eqb_neq.
    + now apply String.eqb_eq.
Qed.

(** The three paths of [addItem]. *)
Lemma addItem_invalid (now : Z) (s : Store) :
  invalidDraft (newItem s) -> addItem toLowerCase now s = showAlert msgValidation s.
Proof.
  intros H. apply invalidDraft_test in H. unfold addItem. now rewrite H.
Qed.

Lemma addItem_duplicate (now : Z) (s : Store) :
  ~ invalidDraft (newItem s) ->
  collides toLowerCase (Draft.nome (newItem s)) (items s) ->
  addItem toLowerCase now s = showAlert msgDuplicate s.
Proof.
  intros Hv Hc. unfold addItem.
  destruct (_ || _) eqn:Ht; [apply invalidDraft_test in Ht; contradiction|].
  apply collides_test in Hc. cbv zeta. now rewrite Hc.
Qed.

Lemma addItem_accepted (now : Z) (s : Store) :
  ~ invalidDraft (newItem s) ->
  ~ collides toLowerCase (Draft.nome (newItem s)) (items s) ->
  addItem toLowerCase now s
  = setNewItem defaultDraft (setItems (items s ++ [withId now (newItem s)]) s).
Proof.
  intros Hv Hc. unfold addItem.
  destruct (_ || _) eqn:Ht; [apply invalidDraft_test in Ht; contradiction|].
  cbv zeta. destruct (existsb _ _) eqn:He; [|reflexivity].
  apply collides_test in He. contradiction.
Qed.

Lemma invalidDraft_dec (d : Draft.t) : {invalidDraft d} + {~ invalidDraft d}.
Proof.
  destruct ((Draft.nome d =? EmptyString)%string
            || PrimFloat.leb (Draft.preco d) 0%float) eqn:Ht.
  - left. now apply invalidDraft_test.
  - right. intros H. apply invalidDraft_test in H. congruence.
Qed.

Lemma collides_dec (name : string) (l : list Item.t) :
  {collides toLowerCase name l} + {~ collides toLowerCase name l}.
Proof.
  destruct (existsb (fun item => sameName toLowerCase (Item.nome item) name) l) eqn:He.
  - left. now apply collides_test.
  - right. intros H. apply collides_test in H. congruence.
Qed.

(** The three paths of [saveEdit]. *)
Lemma saveEdit_duplicate (s : Store) (e : Item.t) :
  editingItem s = Some e ->
  collidesWithOther toLowerCase (Item.id e) (Item.nome e) (items s) ->
  saveEdit toLowerCase s = showAlert msgDuplicateEdit s.
Proof.
  intros He Hc. unfold saveEdit. rewrite He. cbv zeta.
  apply collidesWithOther_test in Hc. now rewrite Hc.
Qed.

Lemma saveEdit_accepted (s : Store) (e : Item.t) :
  editingItem s = Some e ->
  ~ collidesWithOther toLowerCase (Item.id e) (Item.nome e) (items s) ->
  saveEdit toLowerCase s = setEditingItem None (setItems (replaceById e (items s)) s).
Proof.
  intros He Hc. unfold saveEdit. rewrite He. cbv zeta.
  destruct (existsb _ _) eqn:Ht; [|reflexivity].
  apply collidesWithOther_test in Ht. contradiction.
Qed.

Lemma saveEdit_idle (s : Store) :
  editingItem s = None -> saveEdit toLowerCase s = s.
Proof.
  intros He. unfold saveEdit. now rewrite He.
Qed.

(** What [saveEdit] does to the active list, whatever the store. *)
Lemma saveEdit_items (s : Store) :
  items (saveEdit toLowerCase s) = items s
  \/ exists e, editingItem s = Some e
               /\ ~ collidesWithOther toLowerCase (Item.id e) (Item.nome e) (items s)
               /\ items (saveEdit toLowerCase s) = replaceById e (items s).
Proof.
  unfold saveEdit. destruct (editingItem s) as [e|]; [|now left].
  cbv zeta. destruct (existsb _ _) eqn:Ht; [now left|].
  right. exists e. repeat split; auto.
  intros H. apply collidesWithOther_test in H. congruence.
Qed.

Lemma saveEdit_archived (s : Store) :
  archivedItems (saveEdit toLowerCase s) = archivedItems s.
Proof.
  unfold saveEdit. destruct (editingItem s) as [e|]; [|reflexivity].
  cbv zeta. destruct (existsb _ _); reflexivity.
Qed.

(** What [addItem] does to the active list, whatever the store. *)
Lemma addItem_items (now : Z) (s : Store) :
  items (addItem toLowerCase now s) = items s
  \/ (~ collides toLowerCase (Draft.nome (newItem s)) (items s)
      /\ items (addItem toLowerCase now s) = items s ++ [withId now (newItem s)]).
Proof.
  destruct (invalidDraft_dec (newItem s)) as [Hv|Hv].
  - left. now rewrite addItem_invalid.
  - destruct (collides_dec (Draft.nome (newItem s)) (items s)) as [Hc|Hc].
    + left. now rewrite addItem_duplicate.
    + right. split; [assumption|]. now rewrite addItem_accepted.
Qed.

Lemma addItem_archived (now : Z) (s : Store) :
  archivedItems (addItem toLowerCase now s) = archivedItems s.
Proof.
  unfold addItem. destruct (_ || _); [reflexivity|].
  cbv zeta. destruct (existsb _ _); reflexivity.
Qed.

(** What [archiveItem] does to the two lists, whatever the store. *)
Lemma archiveItem_found (id : Z) (s : Store) (item : Item.t) :
  find (fun i => Item.id i =? id)%Z (items s) = Some item ->
  archiveItem id s
  = setItems (filter (fun i => negb (Item.id i =? id)%Z) (items s))
             (setArchivedItems (archivedItems s ++ [item]) s).
Proof.
  intros H. unfold archiveItem. now rewrite H.
Qed.

Lemma archiveItem_absent (id : Z) (s : Store) :
  (forall j, In j (items s) -> Item.id j <> id) -> archiveItem id s = s.
Proof.
  intros H. apply find_by_id_none in H. unfold archiveItem. now rewrite H.
Qed.

End HandlerFacts.

(** ** Invariants of the transition system *)

Section Invariants.

Variable toLowerCase : string -> string.

Lemma replaceById_in (e x : Item.t) (l : list Item.t) :
  In x (replaceById e l) -> x = e \/ In x l.
Proof.
  unfold replaceById. rewrite in_map_iff. intros (a & Ha & Hin).
  destruct (Item.id a =? Item.id e)%Z; subst; auto.
Qed.

Lemma not_collides_cons (self : Z) (name : string) (a : Item.t) (l : list Item.t) :
  ~ collidesWithOther toLowerCase self name (a :: l) ->
  (Item.id a <> self -> toLowerCase (Item.nome a) <> toLowerCase name)
  /\ ~ collidesWithOther toLowerCase self name l.
Proof.
  intros H. split.
  - intros Hid Hn. apply H. exists a. simpl. auto.
  - intros (j & Hj & Hid & Hn). apply H. exists j. simpl. auto.
Qed.

(** [saveEdit] keeps the names distinct when the ids are distinct. *)
Lemma replaceById_names (e : Item.t) (l : list Item.t) :
  idsUnique l -> namesUnique toLowerCase l ->
  ~ collidesWithOther toLowerCase (Item.id e) (Item.nome e) l ->
  namesUnique toLowerCase (replaceById e l).
Proof.
  unfold idsUnique, namesUnique.
  induction l as [|a l IH]; simpl; intros Hids Hnames Hc; [constructor|].
  inversion Hids as [|? ? Hida Hidl]; subst.
  inversion Hnames as [|? ? Hna Hnl]; subst.
  apply not_collides_cons in Hc. destruct Hc as [Ha Hl].
  destruct (Z.eqb_spec (Item.id a) (Item.id e)) as [Heq|Hne].
  - assert (Habs : forall j, In j l -> Item.id j <> Item.id e).
    { intros j Hj Hje. apply Hida. rewrite Heq, <- Hje. now apply in_map. }
    fold (replaceById e l). rewrite (replaceById_absent e l Habs).
    constructor; [|assumption].
    rewrite in_map_iff. intros (j & Hn & Hj).
    apply Hl. exists j. repeat split; auto.
  - constructor; [|apply IH; assumption].
    fold (replaceById e l). rewrite in_map_iff. intros (j & Hn & Hj).
    apply replaceById_in in Hj. destruct Hj as [->|Hj].
    + apply (Ha Hne). congruence.
    + apply Hna. rewrite in_map_iff. exists j. auto.
Qed.

(** One event keeps names and ids of the active list distinct, if the
    clock gives [addItem] a value that no active item has as its id. *)
Lemma dispatch_keeps_unique (ev : Event) (s : Store) :
  namesUnique toLowerCase (items s) -> idsUnique (items s) ->
  (forall now, ev = EvAddItem now -> freshClock s now) ->
  namesUnique toLowerCase (items (dispatch toLowerCase ev s))
  /\ idsUnique (items (dispatch toLowerCase ev s)).
Proof.
  intros Hn Hi Hclock. destruct ev as [c|now|id|item|c| | | | ]; simpl; auto.
  - destruct (addItem_items toLowerCase now s) as [->|[Hc ->]]; auto.
    split.
    + apply NoDup_map_snoc; [assumption|].
      rewrite in_map_iff. intros (j & Hj & Hin).
      apply Hc. exists j. split; [assumption|]. exact Hj.
    + unfold idsUnique. apply NoDup_map_snoc; [assumption|].
      simpl. apply (Hclock now eq_refl).
  - unfold archiveItem. destruct (find _ _); simpl; auto.
    split; apply NoDup_map_filter; assumption.
  - unfold changeEditingItem. destruct (editingItem s); simpl; auto.
  - destruct (saveEdit_items toLowerCase s) as [->|(e & _ & Hc & ->)]; auto.
    split.
    + apply replaceById_names; assumption.
    + unfold idsUnique. now rewrite replaceById_ids.
Qed.

Lemma reachable_fresh_unique (s : Store) :
  reachable toLowerCase freshClock s ->
  namesUnique toLowerCase (items s) /\ idsUnique (items s).
Proof.
  induction 1 as [|s ev _ [IHn IHi] Hclock].
  - split; constructor.
  - apply dispatch_keeps_unique; assumption.
Qed.

(** A sequence of events whose clock values obey [ok] stays within the
    reachable stores. *)
Lemma reachable_run (ok : Clock) (evs : list Event) (s : Store) :
  reachable toLowerCase ok s -> clockAlong toLowerCase ok evs s ->
  reachable toLowerCase ok (run toLowerCase evs s).
Proof.
  revert s. induction evs as [|ev evs IH]; simpl; intros s Hs Hc; [assumption|].
  destruct Hc as [Hev Hrest]. apply IH; [|assumption].
  now apply reach_step.
Qed.

Lemma reachable_weaken (ok ok' : Clock) (s : Store) :
  (forall st now, ok st now -> ok' st now) ->
  reachable toLowerCase ok s -> reachable toLowerCase ok' s.
Proof.
  intros Hw. induction 1 as [|s ev _ IH Hclock]; [constructor|].
  apply reach_step; auto.
Qed.

(** One event keeps the ids of the whole store distinct, if the clock gives
    [addItem] a value that no item of the store has as its id. *)
Lemma dispatch_keeps_ids (ev : Event) (s : Store) :
  idsUnique (items s ++ archivedItems s) ->
  (forall now, ev = EvAddItem now -> unusedClock s now) ->
  idsUnique (items (dispatch toLowerCase ev s) ++ archivedItems (dispatch toLowerCase ev s)).
Proof.
  intros Hu Hclock. destruct ev as [c|now|id|item|c| | | | ]; simpl; auto.
  - rewrite addItem_archived.
    destruct (addItem_items toLowerCase now s) as [->|[_ ->]]; auto.
    specialize (Hclock now eq_refl). unfold unusedClock in Hclock.
    unfold idsUnique in *.
    apply Permutation_NoDup
      with (l := map Item.id (withId now (newItem s) :: items s ++ archivedItems s)).
    + apply Permutation_map. rewrite <- app_assoc. simpl. apply Permutation_middle.
    + simpl. constructor; assumption.
  - unfold archiveItem. destruct (find _ _) as [item|] eqn:Hf; simpl; auto.
    apply find_by_id_split in Hf. destruct Hf as (l1 & l2 & Hl & Hid & _).
    subst id. rewrite Hl in *.
    assert (Hact : idsUnique (l1 ++ item :: l2)).
    { unfold idsUnique in *. rewrite map_app in Hu. eapply NoDup_app_remove_r. exact Hu. }
    rewrite (filter_unique_id l1 l2 item Hact).
    unfold idsUnique in *.
    eapply Permutation_NoDup; [|exact Hu].
    apply Permutation_map.
    rewrite <- !app_assoc. apply Permutation_app_head. simpl.
    rewrite app_assoc. apply Permutation_cons_app. rewrite app_nil_r. reflexivity.
  - unfold changeEditingItem. destruct (editingItem s); simpl; auto.
  - rewrite saveEdit_archived.
    destruct (saveEdit_items toLowerCase s) as [->|(e & _ & _ & ->)]; auto.
    unfold idsUnique in *. rewrite map_app, replaceById_ids, <- map_app. auto.
Qed.

(** One event keeps the ids of the active list ascending, if the clock
    gives [addItem] a value later than every id of the store. *)
Lemma dispatch_keeps_ascending (ev : Event) (s : Store) :
  StronglySorted Z.lt (map Item.id (items s)) ->
  (forall now, ev = EvAddItem now -> laterClock s now) ->
  StronglySorted Z.lt (map Item.id (items (dispatch toLowerCase ev s))).
Proof.
  intros Hs Hclock. destruct ev as [c|now|id|item|c| | | | ]; simpl; auto.
  - destruct (addItem_items toLowerCase now s) as [->|[_ ->]]; auto.
    specialize (Hclock now eq_refl). unfold laterClock in Hclock.
    rewrite map_app. simpl. apply sorted_snoc; [assumption|].
    intros x Hx. apply in_map_iff in Hx. destruct Hx as (j & <- & Hj).
    apply Hclock. apply in_or_app. now left.
  - unfold archiveItem. destruct (find _ _); simpl; auto.
    now apply sorted_ids_filter.
  - unfold changeEditingItem. destruct (editingItem s); simpl; auto.
  - destruct (saveEdit_items toLowerCase s) as [->|(e & _ & _ & ->)]; auto.
    now rewrite replaceById_ids.
Qed.

Lemma later_is_unused (s : Store) (now : Z) : laterClock s now -> unusedClock s now.
Proof.
  unfold laterClock, unusedClock. intros H Hin.
  apply in_map_iff in Hin. destruct Hin as (j & Hj & Hin).
  apply H in Hin. lia.
Qed.

Lemma reachable_unused_ids (s : Store) :
  reachable toLowerCase unusedClock s -> idsUnique (items s ++ archivedItems s).
Proof.
  induction 1 as [|s ev _ IH Hclock].
  - constructor.
  - apply dispatch_keeps_ids; assumption.
Qed.

Lemma reachable_later_ascending (s : Store) :
  reachable toLowerCase laterClock s -> StronglySorted Z.lt (map Item.id (items s)).
Proof.
  induction 1 as [|s ev _ IH Hclock].
  - constructor.
  - apply dispatch_keeps_ascending; assumption.
Qed.

(** No event rewrites the id of an item. *)
Lemma dispatch_idsKept (ev : Event) (s : Store) :
  idsKept ev s (dispatch toLowerCase ev s).
Proof.
  destruct ev as [c|now|id|item|c| | | | ]; simpl; auto.
  - split; [apply addItem_archived|].
    destruct (addItem_items toLowerCase now s) as [->|[_ ->]]; auto.
  - unfold archiveItem. destruct (find _ _) as [item|] eqn:Hf; simpl.
    + split; [apply incl_filter|].
      exists [item]. split; [reflexivity|].
      intros j [<-|[]]. apply find_some in Hf. tauto.
    + split; [apply incl_refl|]. exists []. split; [now rewrite app_nil_r|].
      intros j [].
  - unfold changeEditingItem. destruct (editingItem s); simpl; auto.
  - split; [|apply saveEdit_archived].
    destruct (saveEdit_items toLowerCase s) as [->|(e & _ & _ & ->)]; auto.
    apply replaceById_ids.
Qed.

End Invariants.

(** ** The properties of the specification *)

Section Properties.

Variable toLowerCase : string -> string.

(** C1 (as amended).  Starting from the empty store, and provided the
    clock never hands [addItem] a value that is the id of an item of the
    active list, every store reached has pairwise different names in the
    active list under case-insensitive comparison, and every event keeps it
    so (together with the distinctness of the active ids it rests on).  The
    archived list is under no such constraint: a reachable store archives
    two items of the same name. *)
Theorem active_names_unique :
  (forall s, reachable toLowerCase freshClock s -> namesUnique toLowerCase (items s))
  /\ (forall ev s,
        namesUnique toLowerCase (items s) -> idsUnique (items s) ->
        (forall now, ev = EvAddItem now -> freshClock s now) ->
        namesUnique toLowerCase (items (dispatch toLowerCase ev s))
        /\ idsUnique (items (dispatch toLowerCase ev s)))
  /\ (exists s, reachable toLowerCase freshClock s
                /\ ~ namesUnique toLowerCase (archivedItems s)).
Proof.
  split; [|split].
  - intros s Hs. now apply reachable_fresh_unique.
  - intros ev s. apply dispatch_keeps_unique.
  - exists (run toLowerCase breadArchivedTwice initialStore). split.
    + apply reachable_run; [constructor|].
      unfold breadArchivedTwice, breadSession, fillDraft. clock_along fresh_here.
    + assert (Harch : archivedItems (run toLowerCase breadArchivedTwice initialStore)
                      = [Item.mk 1000 "Bread" 1%float 5%float EmptyString EmptyString;
                         Item.mk 2000 "Bread" 1%float 5%float EmptyString EmptyString])
        by (vm_compute; reflexivity).
      rewrite Harch. unfold namesUnique. simpl. intros H.
      inversion H as [|? ? Hnot _]; subst. apply Hnot. now left.
Qed.

(** C2.  [addItem] rejects (shows an alert and returns) exactly when the
    draft is invalid (empty name or price <= 0) or its name collides, case
    insensitively, with an item of the active list.  The validity check
    comes first, so an invalid draft gets the validation alert even when
    its name collides.  The archived list plays no part in the decision.
    A rejection leaves the active list, the archived list and the draft as
    they were and sets the alert. *)
Theorem addItem_rejects_iff (now : Z) (s : Store) :
  let d := newItem s in
  let s' := addItem toLowerCase now s in
  (invalidDraft d -> s' = showAlert msgValidation s)
  /\ (~ invalidDraft d -> collides toLowerCase (Draft.nome d) (items s) ->
      s' = showAlert msgDuplicate s)
  /\ ((exists m, s' = showAlert m s)
      <-> invalidDraft d \/ collides toLowerCase (Draft.nome d) (items s))
  /\ (forall arch,
        (exists m, addItem toLowerCase now (setArchivedItems arch s)
                   = showAlert m (setArchivedItems arch s))
        <-> (exists m, s' = showAlert m s))
  /\ (forall m, s' = showAlert m s ->
        items s' = items s /\ archivedItems s' = archivedItems s
        /\ newItem s' = newItem s /\ alert s' = Some m).
Proof.
  cbv zeta.
  assert (Hiff : forall st,
             (exists m, addItem toLowerCase now st = showAlert m st)
             <-> invalidDraft (newItem st)
                 \/ collides toLowerCase (Draft.nome (newItem st)) (items st)).
  { intros st. split.
    - intros [m Hm].
      destruct (invalidDraft_dec (newItem st)) as [Hv|Hv]; [now left|].
      destruct (collides_dec toLowerCase (Draft.nome (newItem st)) (items st))
        as [Hc|Hc]; [now right|].
      rewrite (addItem_accepted toLowerCase now st Hv Hc) in Hm.
      apply (f_equal (fun x => List.length (items x))) in Hm. simpl in Hm.
      rewrite List.length_app in Hm. simpl in Hm. lia.
    - intros [Hv|Hc].
      + exists msgValidation. now apply addItem_invalid.
      + destruct (invalidDraft_dec (newItem st)) as [Hv|Hv].
        * exists msgValidation. now apply addItem_invalid.
        * exists msgDuplicate. now apply addItem_duplicate. }
  repeat split.
  - apply addItem_invalid.
  - apply addItem_duplicate.
  - apply Hiff.
  - apply Hiff.
  - intros H. apply Hiff in H. apply Hiff. exact H.
  - intros H. apply Hiff in H. apply Hiff. exact H.
  - now rewrite H.
  - now rewrite H.
  - now rewrite H.
  - now rewrite H.
Qed.

(** C3 (as amended).  When the draft passes both checks, [addItem] appends
    one item to the end of the active list, with the fields of the draft
    and the value of the clock as its id, and resets the draft to quantity
    1, price 0 and empty strings; the archived list and the rest of the
    store stay.  The id is a fresh one, different from the id of every item
    of the active and archived lists, so that ids that were pairwise
    different stay so, provided the value of the clock is not already the
    id of an item of the store. *)
Theorem addItem_appends (now : Z) (s : Store) :
  ~ invalidDraft (newItem s) ->
  ~ collides toLowerCase (Draft.nome (newItem s)) (items s) ->
  let d := newItem s in
  let s' := addItem toLowerCase now s in
  items s' = items s ++ [Item.mk now (Draft.nome d) (Draft.quantidade d) (Draft.preco d)
                                 (Draft.categoria d) (Draft.sugeridoPor d)]
  /\ newItem s' = Draft.mk EmptyString 1%float 0%float EmptyString EmptyString
  /\ archivedItems s' = archivedItems s
  /\ editingItem s' = editingItem s
  /\ alert s' = alert s
  /\ showArchived s' = showArchived s
  /\ (unusedClock s now ->
      (forall i, In i (items s ++ archivedItems s) -> Item.id i <> now)
      /\ (idsUnique (items s ++ archivedItems s) ->
          idsUnique (items s' ++ archivedItems s'))).
Proof.
  intros Hv Hc. cbv zeta.
  assert (Hkeep : unusedClock s now ->
                  idsUnique (items s ++ archivedItems s) ->
                  idsUnique (items (addItem toLowerCase now s)
                             ++ archivedItems (addItem toLowerCase now s))).
  { intros Hclock Hu.
    apply (dispatch_keeps_ids toLowerCase (EvAddItem now) s Hu).
    intros now' [= <-]. exact Hclock. }
  rewrite (addItem_accepted toLowerCase now s Hv Hc) in *.
  simpl in *. repeat apply conj; try reflexivity.
  intros Hclock. split; [|now apply Hkeep].
  intros i Hin Heq. apply Hclock. rewrite <- Heq. now apply in_map.
Qed.

(** C4 (as amended).  When the ids of the active list are pairwise
    different, [archiveItem] on the id of an active item appends that very
    item as it is to the end of the archived list and removes it, and only
    it, from the active list.  Whatever the ids, if some active item has the
    id, the first one with the id is appended as it is to the end of the
    archived list and no item with the id is left in the active list, the
    items with other ids staying in place.  If no active item has the id the store is
    unchanged, so a second call with the same id does nothing more.  The
    handler is total: no call fails. *)
Theorem archiveItem_moves (id : Z) (s : Store) :
  let s' := archiveItem id s in
  ((exists item, In item (items s) /\ Item.id item = id) ->
   exists item before after,
     items s = before ++ item :: after
     /\ (forall j, In j before -> Item.id j <> id)
     /\ Item.id item = id
     /\ archivedItems s' = archivedItems s ++ [item]
     /\ items s' = filter (fun i => negb (Item.id i =? id)%Z) (items s)
     /\ (forall j, In j (items s') -> Item.id j <> id))
  /\ (forall item, idsUnique (items s) -> In item (items s) -> Item.id item = id ->
      exists l1 l2, items s = l1 ++ item :: l2
        /\ items s' = l1 ++ l2
        /\ archivedItems s' = archivedItems s ++ [item])
  /\ ((forall j, In j (items s) -> Item.id j <> id) -> s' = s)
  /\ archiveItem id s' = s'
  /\ (editingItem s' = editingItem s /\ alert s' = alert s
      /\ newItem s' = newItem s /\ showArchived s' = showArchived s).
Proof.
  cbv zeta. repeat apply conj.
  - intros (item0 & Hin0 & Hid0).
    destruct (find (fun i => Item.id i =? id)%Z (items s)) as [item|] eqn:Hf.
    + rewrite (archiveItem_found id s item Hf). simpl.
      destruct (find_by_id_split _ _ _ Hf) as (l1 & l2 & Hl & Hid & Hfirst).
      exists item, l1, l2. repeat split; auto.
      intros j Hj. now apply filter_other_ids_none in Hj.
    + exfalso. apply (proj1 (find_by_id_none id (items s)) Hf item0); assumption.
  - intros item Hu Hin Hid. subst id.
    pose proof (in_unique_id_find (items s) item Hu Hin) as Hf.
    rewrite (archiveItem_found _ s item Hf). simpl.
    destruct (find_by_id_split _ _ _ Hf) as (l1 & l2 & Hl & _ & _).
    exists l1, l2. repeat split; auto.
    rewrite Hl in *. now apply filter_unique_id.
  - apply archiveItem_absent.
  - destruct (find (fun i => Item.id i =? id)%Z (items s)) as [item|] eqn:Hf.
    + rewrite (archiveItem_found id s item Hf). apply archiveItem_absent. simpl.
      intros j Hj. now apply filter_other_ids_none in Hj.
    + unfold archiveItem. now rewrite !Hf.
  - unfold archiveItem. now destruct (find _ _).
  - unfold archiveItem. now destruct (find _ _).
  - unfold archiveItem. now destruct (find _ _).
  - unfold archiveItem. now destruct (find _ _).
Qed.

(** C5.  When the name of the edit draft collides, case insensitively, with
    the name of an active item of another id, [saveEdit] shows the
    duplicate alert, leaves the active list as it was and keeps the edit
    session open on the same draft. *)
Theorem saveEdit_rejects (s : Store) (e : Item.t) :
  editingItem s = Some e ->
  collidesWithOther toLowerCase (Item.id e) (Item.nome e) (items s) ->
  let s' := saveEdit toLowerCase s in
  alert s' = Some msgDuplicateEdit
  /\ items s' = items s
  /\ editingItem s' = Some e
  /\ archivedItems s' = archivedItems s
  /\ newItem s' = newItem s.
Proof.
  intros He Hc. cbv zeta. rewrite (saveEdit_duplicate toLowerCase s e He Hc).
  simpl. repeat split. exact He.
Qed.

(** C6.  When the name of the edit draft does not collide, [saveEdit] puts
    the whole draft in the place of every active item that has the id of
    the draft, keeps every other item where it is, and closes the edit
    session without an alert.  Nothing else is checked: the statement holds
    for any price and quantity of the draft. *)
Theorem saveEdit_commits (s : Store) (e : Item.t) :
  editingItem s = Some e ->
  ~ collidesWithOther toLowerCase (Item.id e) (Item.nome e) (items s) ->
  let s' := saveEdit toLowerCase s in
  List.length (items s') = List.length (items s)
  /\ (forall n item, nth_error (items s) n = Some item ->
        (Item.id item = Item.id e -> nth_error (items s') n = Some e)
        /\ (Item.id item <> Item.id e -> nth_error (items s') n = Some item))
  /\ editingItem s' = None
  /\ alert s' = alert s
  /\ archivedItems s' = archivedItems s
  /\ newItem s' = newItem s.
Proof.
  intros He Hc. cbv zeta. rewrite (saveEdit_accepted toLowerCase s e He Hc).
  simpl. repeat apply conj; auto.
  - unfold replaceById. apply List.length_map.
  - intros n item Hn. rewrite (replaceById_nth e _ _ _ Hn).
    destruct (Z.eqb_spec (Item.id item) (Item.id e)); split; intros; congruence.
Qed.

(** C7.  [cancelEdit] closes the edit session and changes nothing else,
    whatever the draft holds: a session of any changes to the edit draft
    that ends in a cancel leaves the store as a cancel alone would. *)
Theorem cancelEdit_discards (s : Store) :
  (editingItem (cancelEdit s) = None
   /\ items (cancelEdit s) = items s
   /\ archivedItems (cancelEdit s) = archivedItems s
   /\ newItem (cancelEdit s) = newItem s
   /\ alert (cancelEdit s) = alert s
   /\ showArchived (cancelEdit s) = showArchived s)
  /\ (forall item changes,
        cancelEdit (fold_left (fun st c => changeEditingItem c st) changes
                              (startEditing item s))
        = cancelEdit s).
Proof.
  split; [repeat split|].
  intros item changes.
  assert (H : forall st, cancelEdit
                (fold_left (fun st c => changeEditingItem c st) changes st)
              = cancelEdit st).
  { induction changes as [|c changes IH]; simpl; intros st; [reflexivity|].
    rewrite IH. unfold changeEditingItem. now destruct (editingItem st). }
  now rewrite H.
Qed.

(** C8.  [calculateTotal] is the sum, taken in list order from 0 in the
    arithmetic of JavaScript numbers, of price times quantity over the
    active list; it is 0 for an empty active list and does not depend on
    the archived list. *)
Theorem calculateTotal_sums (s : Store) :
  calculateTotal s = sumInOrder (map lineTotal (items s))
  /\ (items s = [] -> calculateTotal s = 0%float)
  /\ (forall item,
        calculateTotal (setItems (items s ++ [item]) s)
        = PrimFloat.add (calculateTotal s)
                        (PrimFloat.mul (Item.preco item) (Item.quantidade item)))
  /\ (forall archived, calculateTotal (setArchivedItems archived s) = calculateTotal s).
Proof.
  assert (Hsum : forall l acc,
             fold_left (fun total item => PrimFloat.add total (lineTotal item)) l acc
             = fold_right (fun x t => PrimFloat.add t x) acc (rev (map lineTotal l))).
  { induction l as [|a l IH]; simpl; intros acc; [reflexivity|].
    rewrite IH, fold_right_app. reflexivity. }
  assert (Hback : forall l, sumBackwards l
                            = fold_right (fun x t => PrimFloat.add t x) 0%float l).
  { induction l as [|a l IH]; simpl; congruence. }
  repeat split.
  - unfold calculateTotal, sumInOrder. rewrite Hsum. symmetry. apply Hback.
  - intros H. unfold calculateTotal. now rewrite H.
  - intros item. unfold calculateTotal. simpl. now rewrite fold_left_app.
Qed.

(** C10.  When no active item has the id of the edit draft (the item was
    archived while it was being edited, say) and the name of the draft
    collides with no active item, [saveEdit] leaves both lists as they
    were, closes the edit session without an alert, and the draft is not
    put back into the active list. *)
Theorem saveEdit_of_absent_item (s : Store) (e : Item.t) :
  editingItem s = Some e ->
  (forall item, In item (items s) -> Item.id item <> Item.id e) ->
  ~ collides toLowerCase (Item.nome e) (items s) ->
  let s' := saveEdit toLowerCase s in
  items s' = items s
  /\ archivedItems s' = archivedItems s
  /\ editingItem s' = None
  /\ alert s' = alert s
  /\ newItem s' = newItem s
  /\ ~ In e (items s').
Proof.
  intros He Habs Hc. cbv zeta.
  assert (Hc' : ~ collidesWithOther toLowerCase (Item.id e) (Item.nome e) (items s)).
  { intros (j & Hj & _ & Hn). apply Hc. exists j. auto. }
  rewrite (saveEdit_accepted toLowerCase s e He Hc'). simpl.
  rewrite (replaceById_absent e (items s) Habs).
  repeat split. intros Hin. now apply (Habs e Hin).
Qed.

(** C9 (as amended).  Provided the clock never hands [addItem] a value
    that is already the id of an item of the store, in every store reached
    from the empty one no two items of the active and archived lists
    together share an id.  Provided the clock hands every [addItem] a value
    later than every id of the store, the ids of the active list moreover
    ascend in the order of creation.  Whatever the clock does, no event
    rewrites an id: [addItem] stamps only the item it appends,
    [archiveItem] moves items as they are, [saveEdit] keeps the id at every
    place of the active list, and the other events leave both lists
    alone. *)
Theorem ids_unique_under_fresh_clock :
  (forall s, reachable toLowerCase unusedClock s ->
             idsUnique (items s ++ archivedItems s))
  /\ (forall s, reachable toLowerCase laterClock s ->
                idsUnique (items s ++ archivedItems s)
                /\ StronglySorted Z.lt (map Item.id (items s)))
  /\ (forall ev s, idsKept ev s (dispatch toLowerCase ev s)).
Proof.
  split; [|split].
  - apply (reachable_unused_ids toLowerCase).
  - intros s Hs. split.
    + apply (reachable_unused_ids toLowerCase).
      apply reachable_weaken with (ok := laterClock); [apply later_is_unused | exact Hs].
    + now apply (reachable_later_ascending toLowerCase).
  - intros ev s. apply dispatch_idsKept.
Qed.

End Properties.

(** ** The properties at work on the sample sessions *)

(** Every session runs within the stores reachable under any clock. *)
Lemma run_reachable_any (evs : list Event) :
  reachable asciiToLowerCase anyClock (run asciiToLowerCase evs initialStore).
Proof.
  apply reachable_run; [constructor|].
  generalize initialStore. induction evs as [|ev evs IH]; simpl; intros s; [exact I|].
  split; [intros now _; exact I | apply IH].
Qed.

Lemma milkSession_fresh :
  reachable asciiToLowerCase freshClock (run asciiToLowerCase milkSession initialStore).
Proof.
  apply reachable_run; [constructor|].
  unfold milkSession, fillDraft. clock_along fresh_here.
Qed.

Lemma breadSession_later :
  reachable asciiToLowerCase laterClock (run asciiToLowerCase breadSession initialStore).
Proof.
  apply reachable_run; [constructor|].
  unfold breadSession, fillDraft. clock_along later_here.
Qed.

(** The first worked example of the specification: the second add is
    rejected, the active list keeps one item and the total stays 7. *)
Example milk_example :
  let s := run asciiToLowerCase milkSession initialStore in
  items s = [milkItem] /\ alert s = Some msgDuplicate /\ calculateTotal s = 7%float.
Proof. vm_compute. repeat split. Qed.

(** The second worked example: an archived name can be used again. *)
Example bread_example :
  let s := run asciiToLowerCase breadSession initialStore in
  items s = [Item.mk 2000 "Bread" 1%float 5%float EmptyString EmptyString]
  /\ archivedItems s = [breadItem] /\ calculateTotal s = 5%float.
Proof. vm_compute. repeat split. Qed.

(** C1, witness: the active list after the milk session. *)
Lemma active_names_unique_witness :
  namesUnique asciiToLowerCase (items (run asciiToLowerCase milkSession initialStore)).
Proof.
  apply (proj1 (active_names_unique asciiToLowerCase)).
  exact milkSession_fresh.
Defined.

(** C1, as stated, fails: when the clock shows the same millisecond at two
    adds, the two items get one id; saving an unchanged edit of the first
    then overwrites both, and the active list holds the name twice.  The
    names were distinct before the save. *)
Lemma names_clash_on_equal_clock :
  let before := run asciiToLowerCase sameTickEditing initialStore in
  reachable asciiToLowerCase anyClock before
  /\ namesUnique asciiToLowerCase (items before)
  /\ items (saveEdit asciiToLowerCase before) = [milkItem; milkItem]
  /\ ~ namesUnique asciiToLowerCase (items (dispatch asciiToLowerCase EvSaveEdit before)).
Proof.
  cbv zeta. split; [apply run_reachable_any|]. split; [|split].
  - unfold namesUnique. vm_compute. repeat constructor.
    + intros [H|[]]. discriminate H.
    + intros [].
  - vm_compute. reflexivity.
  - unfold namesUnique. vm_compute. intros H.
    inversion H as [|? ? Hnot _]; subst. apply Hnot. now left.
Qed.

(** C3, witness: the eggs are added to the list of milk and bread at a
    clock value that is the id of neither. *)
Lemma addItem_appends_witness :
  let s := run asciiToLowerCase eggsTyped initialStore in
  let s' := addItem asciiToLowerCase 3000 s in
  items s' = [milkItem; laterBread;
              Item.mk 3000 "Eggs" 12%float 0.5%float EmptyString EmptyString]
  /\ newItem s' = defaultDraft
  /\ Item.id milkItem <> 3000%Z
  /\ Item.id laterBread <> 3000%Z
  /\ idsUnique (items s' ++ archivedItems s').
Proof.
  cbv zeta.
  destruct (addItem_appends asciiToLowerCase 3000
              (run asciiToLowerCase eggsTyped initialStore))
    as (Hitems & Hdraft & _ & _ & _ & _ & Hfresh).
  - intros H. apply invalidDraft_test in H. vm_compute in H. discriminate H.
  - intros H. apply collides_test in H. vm_compute in H. discriminate H.
  - destruct Hfresh as [Hother Hunique].
    { unfold unusedClock. vm_compute. intros H.
      repeat (destruct H as [H|H]; [discriminate H|]). exact H. }
    split; [exact Hitems|]. split; [exact Hdraft|].
    split; [apply Hother; vm_compute; auto|].
    split; [apply Hother; vm_compute; auto|].
    apply Hunique. unfold idsUnique. nodup_here.
Defined.

(** C3, as stated, fails: the bread draft passes both checks, yet at a
    clock value the milk was stamped with, the id the bread gets is not a
    fresh one. *)
Lemma added_id_is_not_fresh :
  let s := run asciiToLowerCase breadTyped initialStore in
  reachable asciiToLowerCase anyClock s
  /\ ~ invalidDraft (newItem s)
  /\ ~ collides asciiToLowerCase (Draft.nome (newItem s)) (items s)
  /\ items s = [milkItem]
  /\ items (addItem asciiToLowerCase 1000 s) = [milkItem; breadItem]
  /\ Item.id breadItem = Item.id milkItem.
Proof.
  cbv zeta. split; [apply run_reachable_any|].
  split; [intros H; apply invalidDraft_test in H; vm_compute in H; discriminate H|].
  split; [intros H; apply collides_test in H; vm_compute in H; discriminate H|].
  split; [vm_compute; reflexivity|].
  split; [vm_compute; reflexivity | reflexivity].
Qed.

(** C4, witness: with milk and bread of different ids in the list, the
    bread is archived and the milk stays. *)
Lemma archiveItem_moves_witness :
  let s := run asciiToLowerCase twoItems initialStore in
  exists l1 l2,
    items s = l1 ++ laterBread :: l2
    /\ items (archiveItem 2000 s) = l1 ++ l2
    /\ archivedItems (archiveItem 2000 s) = archivedItems s ++ [laterBread].
Proof.
  cbv zeta.
  apply (proj1 (proj2 (archiveItem_moves 2000
                         (run asciiToLowerCase twoItems initialStore)))).
  - unfold idsUnique. nodup_here.
  - vm_compute. auto.
  - reflexivity.
Defined.

(** C4, as stated, fails: with milk and bread of one id in the active
    list, archiving by the id of the bread appends the milk to the archived
    list and removes both; the bread is in neither list afterwards. *)
Lemma archive_takes_first_of_equal_ids :
  let s := run asciiToLowerCase sameTickSession initialStore in
  reachable asciiToLowerCase anyClock s
  /\ items s = [milkItem; breadItem]
  /\ archivedItems (archiveItem (Item.id breadItem) s) = [milkItem]
  /\ items (archiveItem (Item.id breadItem) s) = []
  /\ ~ In breadItem (archivedItems (archiveItem (Item.id breadItem) s)).
Proof.
  cbv zeta. split; [apply run_reachable_any|].
  split; [vm_compute; reflexivity|].
  split; [vm_compute; reflexivity|].
  split; [vm_compute; reflexivity|].
  vm_compute. intros [H|[]]. discriminate H.
Qed.

(** C5, witness: bread renamed to MILK while Milk is in the list. *)
Lemma saveEdit_rejects_witness :
  let s := run asciiToLowerCase renameToMilk initialStore in
  alert (saveEdit asciiToLowerCase s) = Some msgDuplicateEdit
  /\ items (saveEdit asciiToLowerCase s) = [milkItem; laterBread]
  /\ editingItem (saveEdit asciiToLowerCase s)
     = Some (Item.mk 2000 "MILK" 1%float 5%float EmptyString EmptyString).
Proof.
  cbv zeta.
  destruct (saveEdit_rejects asciiToLowerCase
              (run asciiToLowerCase renameToMilk initialStore)
              (Item.mk 2000 "MILK" 1%float 5%float EmptyString EmptyString))
    as (Halert & Hitems & Hedit & _).
  - vm_compute. reflexivity.
  - apply collidesWithOther_test. vm_compute. reflexivity.
  - split; [exact Halert|]. split; [exact Hitems | exact Hedit].
Defined.

(** C6, witness: bread renamed to a bread roll at the price of -1; the
    draft, price and all, takes the second place of the active list. *)
Lemma saveEdit_commits_witness :
  let s := run asciiToLowerCase renameToRoll initialStore in
  let e := Item.mk 2000 "Bread roll" 1%float (-1)%float EmptyString EmptyString in
  PrimFloat.leb (Item.preco e) 0%float = true
  /\ nth_error (items (saveEdit asciiToLowerCase s)) 0 = Some milkItem
  /\ nth_error (items (saveEdit asciiToLowerCase s)) 1 = Some e
  /\ editingItem (saveEdit asciiToLowerCase s) = None
  /\ alert (saveEdit asciiToLowerCase s) = None.
Proof.
  cbv zeta.
  destruct (saveEdit_commits asciiToLowerCase
              (run asciiToLowerCase renameToRoll initialStore)
              (Item.mk 2000 "Bread roll" 1%float (-1)%float EmptyString EmptyString))
    as (_ & Hnth & Hedit & Halert & _).
  - vm_compute. reflexivity.
  - intros H. apply collidesWithOther_test in H. vm_compute in H. discriminate H.
  - split; [vm_compute; reflexivity|].
    split; [apply (Hnth 0%nat milkItem); [reflexivity | vm_compute; discriminate]|].
    split; [apply (Hnth 1%nat laterBread); reflexivity|].
    split; [exact Hedit | exact Halert].
Defined.

(** C10, witness: the milk was archived while its card was open; saving
    the card changes neither list. *)
Lemma saveEdit_of_absent_item_witness :
  let s := run asciiToLowerCase archivedWhileEditing initialStore in
  items (saveEdit asciiToLowerCase s) = [laterBread]
  /\ archivedItems (saveEdit asciiToLowerCase s) = [milkItem]
  /\ editingItem (saveEdit asciiToLowerCase s) = None.
Proof.
  cbv zeta.
  destruct (saveEdit_of_absent_item asciiToLowerCase
              (run asciiToLowerCase archivedWhileEditing initialStore)
              (Item.mk 1000 "Oat milk" 2%float 3.5%float EmptyString EmptyString))
    as (Hitems & Harch & Hedit & _).
  - vm_compute. reflexivity.
  - intros item Hin. vm_compute in Hin. destruct Hin as [<-|[]]. vm_compute. discriminate.
  - intros H. apply collides_test in H. vm_compute in H. discriminate H.
  - split; [exact Hitems|]. split; [exact Harch | exact Hedit].
Defined.

(** C9, witness: the bread session, whose clock values ascend. *)
Lemma ids_unique_under_fresh_clock_witness :
  let s := run asciiToLowerCase breadSession initialStore in
  idsUnique (items s ++ archivedItems s)
  /\ StronglySorted Z.lt (map Item.id (items s)).
Proof.
  cbv zeta.
  apply (proj1 (proj2 (ids_unique_under_fresh_clock asciiToLowerCase))).
  exact breadSession_later.
Defined.

(** C9, as stated, fails: two adds within one millisecond of the clock
    put two items of the same id into the active list. *)
Lemma ids_clash_on_equal_clock :
  let s := run asciiToLowerCase sameTickSession initialStore in
  reachable asciiToLowerCase anyClock s
  /\ items s = [milkItem; breadItem]
  /\ Item.id milkItem = Item.id breadItem
  /\ ~ idsUnique (items s ++ archivedItems s).
Proof.
  cbv zeta. split; [apply run_reachable_any|]. split; [|split].
  - vm_compute. reflexivity.
  - reflexivity.
  - unfold idsUnique. vm_compute. intros H.
    inversion H as [|? ? Hnot _]; subst. apply Hnot. now left.
Qed.

(** ** The form controls *)

Lemma ltb_leb (x y : float) :
  PrimFloat.ltb x y = true -> PrimFloat.leb x y = true.
Proof.
  rewrite ltb_spec, leb_spec. unfold SFltb, SFleb.
  destruct (SFcompare (Prim2SF x) (Prim2SF y)) as [[| |]|]; congruence.
Qed.

Lemma Math_max_one (n : float) :
  (PrimFloat.is_nan n = true -> Math_max 1%float n = PrimFloat.nan)
  /\ (PrimFloat.is_nan n = false ->
      PrimFloat.leb 1%float (Math_max 1%float n) = true
      /\ (Math_max 1%float n = n \/ Math_max 1%float n = 1%float)).
Proof.
  unfold Math_max.
  change (PrimFloat.is_nan 1%float) with false.
  change (PrimFloat.get_sign 1%float) with false.
  simpl orb. split; intros Hn; rewrite Hn; [reflexivity|].
  destruct (PrimFloat.ltb 1%float n) eqn:Hlt.
  - split; [now apply ltb_leb | now left].
  - destruct (PrimFloat.ltb n 1%float); split; auto.
Qed.

Lemma Math_max_one_ok (n : float) : quantityOk (Math_max 1%float n).
Proof.
  unfold quantityOk. destruct (Math_max_one n) as [Hnan Hnum].
  destruct (PrimFloat.is_nan n) eqn:Hn.
  - left. now rewrite Hnan.
  - right. now apply Hnum.
Qed.

Lemma changeItem_id (c : Change) (e : Item.t) :
  Item.id (changeItem c e) = Item.id e.
Proof. destruct c; reflexivity. Qed.

Lemma changeDraft_ok (c : Change) (d : Draft.t) :
  offeredChange c -> draftOk d -> draftOk (changeDraft c d).
Proof.
  unfold draftOk. intros Hc [Hq Hcat]. destruct c; simpl in *; auto.
  split; [apply Math_max_one_ok | assumption].
Qed.

Lemma changeItem_ok (c : Change) (e : Item.t) :
  offeredChange c -> itemOk e -> itemOk (changeItem c e).
Proof.
  unfold itemOk. intros Hc [Hq Hcat]. destruct c; simpl in *; auto.
  split; [apply Math_max_one_ok | assumption].
Qed.

Lemma defaultDraft_ok : draftOk defaultDraft.
Proof.
  split; [right; reflexivity | left; reflexivity].
Qed.


(** ** Invariants of the stores the view reaches *)

Section ViewInvariants.

Variable toLowerCase : string -> string.

Lemma withId_ok (now : Z) (d : Draft.t) : draftOk d -> itemOk (withId now d).
Proof. intros H. exact H. Qed.

Lemma replaceById_ok (e : Item.t) (l : list Item.t) :
  itemOk e -> Forall itemOk l -> Forall itemOk (replaceById e l).
Proof.
  intros He Hl. rewrite Forall_forall in *. intros x Hx.
  apply replaceById_in in Hx. destruct Hx as [->|Hx]; auto.
Qed.

Lemma filter_ok (p : Item.t -> bool) (l : list Item.t) :
  Forall itemOk l -> Forall itemOk (filter p l).
Proof.
  rewrite !Forall_forall. intros H x Hx. apply filter_In in Hx. apply H, Hx.
Qed.

(** One event offered by the view keeps quantities clamped and categories
    among the options. *)
Lemma dispatch_keeps_ok (ev : Event) (s : Store) :
  storeOk s -> offered s ev -> storeOk (dispatch toLowerCase ev s).
Proof.
  unfold storeOk. intros (Hd & He & Hi & Ha) Hoff.
  destruct ev as [c|now|id|item|c| | | | ]; simpl in *.
  - destruct Hoff as [_ Hc].
    refine (conj _ (conj He (conj Hi Ha))). now apply changeDraft_ok.
  - unfold addItem. destruct (_ || _); [simpl; auto|].
    cbv zeta. destruct (existsb _ _); simpl; [auto|].
    refine (conj defaultDraft_ok (conj He (conj _ Ha))).
    apply Forall_app. split; [assumption|].
    constructor; [|constructor]. now apply withId_ok.
  - unfold archiveItem. destruct (find _ _) as [item|] eqn:Hf; simpl; [|auto].
    refine (conj Hd (conj He (conj _ _))); [now apply filter_ok|].
    apply Forall_app. split; [assumption|].
    constructor; [|constructor].
    apply find_some in Hf. rewrite Forall_forall in Hi. apply Hi. tauto.
  - destruct Hoff as (_ & Hin & _).
    refine (conj Hd (conj _ (conj Hi Ha))).
    intros e [= <-]. rewrite Forall_forall in Hi. now apply Hi.
  - destruct Hoff as (_ & Hc & _). unfold changeEditingItem.
    destruct (editingItem s) as [e|] eqn:Hed; simpl; [|rewrite Hed; auto].
    refine (conj Hd (conj _ (conj Hi Ha))).
    intros e' [= <-]. apply changeItem_ok; auto.
  - unfold saveEdit. destruct (editingItem s) as [e|] eqn:Hed; [|rewrite Hed; auto].
    cbv zeta. destruct (existsb _ _); simpl; [rewrite Hed; auto|].
    refine (conj Hd (conj _ (conj _ Ha))); [discriminate|].
    apply (replaceById_ok e (items s)); auto.
  - refine (conj Hd (conj _ (conj Hi Ha))). discriminate.
  - auto.
  - auto.
Qed.

Lemma viewReachable_ok (s : Store) : viewReachable toLowerCase s -> storeOk s.
Proof.
  induction 1 as [|s ev _ IH Hoff].
  - unfold storeOk. simpl.
    refine (conj defaultDraft_ok (conj _ (conj _ _))); [discriminate | constructor..].
  - now apply dispatch_keeps_ok.
Qed.

Lemma underEdit_false (s : Store) (item e : Item.t) :
  underEdit s item = false -> editingItem s = Some e -> Item.id e <> Item.id item.
Proof.
  unfold underEdit. intros H He. rewrite He in H. now apply Z.eqb_neq.
Qed.

(** One event offered by the view keeps the item under edit in the active
    list: its card has no archive button. *)
Lemma dispatch_keeps_editing (ev : Event) (s : Store) :
  editingActive s -> offered s ev -> editingActive (dispatch toLowerCase ev s).
Proof.
  unfold editingActive. intros Hact Hoff.
  destruct ev as [c|now|id|item|c| | | | ]; simpl in *; auto.
  - unfold addItem. destruct (_ || _); [simpl; auto|].
    cbv zeta. destruct (existsb _ _); simpl; [auto|].
    intros e He. destruct (Hact e He) as (j & Hj & Hid).
    exists j. split; [apply in_or_app; now left | assumption].
  - destruct Hoff as (_ & item & Hin & Hnot & Hid). subst id.
    unfold archiveItem. destruct (find _ _) as [found|]; simpl; [|auto].
    intros e He. destruct (Hact e He) as (j & Hj & Hje).
    exists j. split; [|assumption].
    apply filter_In. split; [assumption|].
    apply negb_true_iff, Z.eqb_neq. rewrite Hje.
    now apply (underEdit_false s item e).
  - destruct Hoff as (_ & Hin & _). intros e [= <-]. exists item. auto.
  - unfold changeEditingItem.
    destruct (editingItem s) as [e|] eqn:Hed; simpl; [|rewrite Hed; discriminate].
    intros e' [= <-]. rewrite changeItem_id. now apply Hact.
  - unfold saveEdit. destruct (editingItem s) as [e|] eqn:Hed; [|rewrite Hed; discriminate].
    cbv zeta. destruct (existsb _ _); simpl; [|discriminate].
    rewrite Hed. auto.
  - discriminate.
Qed.

Lemma viewReachable_editing (s : Store) :
  viewReachable toLowerCase s -> editingActive s.
Proof.
  induction 1 as [|s ev _ IH Hoff].
  - intros e. simpl. discriminate.
  - now apply dispatch_keeps_editing.
Qed.

Lemma viewReachable_run (evs : list Event) (s : Store) :
  viewReachable toLowerCase s -> offeredAlong toLowerCase evs s ->
  viewReachable toLowerCase (run toLowerCase evs s).
Proof.
  revert s. induction evs as [|ev evs IH]; simpl; intros s Hs Hoff; [assumption|].
  destruct Hoff as [Hev Hrest]. apply IH; [|assumption].
  now apply view_step.
Qed.

(** X2.  In every store the view reaches, whatever the clock shows, every
    quantity is clamped (not below 1, or NaN): that of the new-item draft,
    of the edit draft, and of every item of the active and archived
    lists. *)
Theorem view_quantities_clamped (s : Store) :
  viewReachable toLowerCase s ->
  quantityOk (Draft.quantidade (newItem s))
  /\ (forall e, editingItem s = Some e -> quantityOk (Item.quantidade e))
  /\ (forall i, In i (items s ++ archivedItems s) -> quantityOk (Item.quantidade i)).
Proof.
  intros Hs. destruct (viewReachable_ok s Hs) as ([Hq _] & He & Hi & Ha).
  split; [assumption|]. split.
  - intros e Hed. apply (He e Hed).
  - intros i Hin. rewrite Forall_forall in Hi, Ha.
    apply in_app_or in Hin. destruct Hin as [Hin|Hin]; [apply Hi | apply Ha]; assumption.
Qed.

(** X3.  In every store the view reaches, every category is the empty
    string or one of [CATEGORIAS]: that of the new-item draft, of the edit
    draft, and of every item of the active and archived lists. *)
Theorem view_categories_listed (s : Store) :
  viewReachable toLowerCase s ->
  In (Draft.categoria (newItem s)) (EmptyString :: CATEGORIAS)
  /\ (forall e, editingItem s = Some e -> In (Item.categoria e) (EmptyString :: CATEGORIAS))
  /\ (forall i, In i (items s ++ archivedItems s) ->
                In (Item.categoria i) (EmptyString :: CATEGORIAS)).
Proof.
  intros Hs. destruct (viewReachable_ok s Hs) as ([_ Hc] & He & Hi & Ha).
  split; [assumption|]. split.
  - intros e Hed. apply (He e Hed).
  - intros i Hin. rewrite Forall_forall in Hi, Ha.
    apply in_app_or in Hin. destruct Hin as [Hin|Hin]; [apply Hi | apply Ha]; assumption.
Qed.

(** X4.  In every store the view reaches, the item under edit is still in
    the active list (its card shows the edit form, not the archive button),
    so [saveEdit] never drops a draft unnoticed: it shows the duplicate
    alert, or the draft is in the active list afterwards. *)
Theorem view_edit_is_of_active_item (s : Store) (e : Item.t) :
  viewReachable toLowerCase s ->
  editingItem s = Some e ->
  (exists item, In item (items s) /\ Item.id item = Item.id e)
  /\ (alert (saveEdit toLowerCase s) = Some msgDuplicateEdit
      \/ In e (items (saveEdit toLowerCase s))).
Proof.
  intros Hs Hed.
  destruct (viewReachable_editing s Hs e Hed) as (item & Hin & Hid).
  split; [exists item; auto|].
  unfold saveEdit. rewrite Hed. cbv zeta.
  destruct (existsb _ _); simpl; [now left|].
  right. apply in_map_iff. exists item. split; [|assumption].
  now rewrite Hid, Z.eqb_refl.
Qed.

End ViewInvariants.

(** ** How the handlers compose *)

Lemma NoDup_map_inj (A B : Type) (f : A -> B) (l : list A) (a b : A) :
  NoDup (map f l) -> In a l -> In b l -> f a = f b -> a = b.
Proof.
  induction l as [|x l IH]; simpl; intros Hnd Ha Hb Hf; [contradiction|].
  inversion Hnd as [|? ? Hnot Hrest]; subst.
  destruct Ha as [->|Ha], Hb as [->|Hb]; auto.
  - exfalso. apply Hnot. rewrite Hf. now apply in_map.
  - exfalso. apply Hnot. rewrite <- Hf. now apply in_map.
Qed.

Lemma replaceById_self (item : Item.t) (l : list Item.t) :
  idsUnique l -> In item l -> replaceById item l = l.
Proof.
  intros Hu Hin. unfold replaceById.
  rewrite <- (map_id l) at 2. apply map_ext_in.
  intros x Hx. destruct (Z.eqb_spec (Item.id x) (Item.id item)) as [Heq|Hne]; auto.
  symmetry. exact (NoDup_map_inj _ _ Item.id l x item Hu Hx Hin Heq).
Qed.

Lemma find_by_id_snoc (x : Z) (l : list Item.t) (item : Item.t) :
  (forall j, In j l -> Item.id j <> x) -> Item.id item = x ->
  find (fun i => Item.id i =? x)%Z (l ++ [item]) = Some item.
Proof.
  intros Hl Hid. induction l as [|a l IH]; simpl.
  - subst x. now rewrite Z.eqb_refl.
  - destruct (Z.eqb_spec (Item.id a) x) as [Heq|Hne].
    + exfalso. apply (Hl a); simpl; auto.
    + apply IH. intros j Hj. apply Hl. now right.
Qed.

Section Composition.

Variable toLowerCase : string -> string.

Lemma dispatch_archived_grows (ev : Event) (s : Store) :
  exists moved, archivedItems (dispatch toLowerCase ev s) = archivedItems s ++ moved.
Proof.
  pose proof (dispatch_idsKept toLowerCase ev s) as H.
  destruct ev; simpl in H;
    try (exists []; rewrite app_nil_r; tauto).
  destruct H as (_ & moved & Hm & _). now exists moved.
Qed.

(** X5.  The archived list only grows at its end: after any sequence of
    events, whatever the clock shows, it is the archived list from before
    followed by the items archived since.  No event removes, reorders or
    rewrites an archived item. *)
Theorem archived_only_grows (evs : list Event) (s : Store) :
  exists moved, archivedItems (run toLowerCase evs s) = archivedItems s ++ moved.
Proof.
  unfold run. revert s. induction evs as [|ev evs IH]; simpl; intros s.
  - exists []. now rewrite app_nil_r.
  - destruct (IH (dispatch toLowerCase ev s)) as (later & Hlater).
    destruct (dispatch_archived_grows ev s) as (first & Hfirst).
    exists (first ++ later). rewrite Hlater, Hfirst.
    now rewrite app_assoc.
Qed.

(** X6.  Adding an accepted draft and then archiving the id it got gives
    the active list, and with it the total, back as it was and puts the new
    item at the end of the archived list, provided the clock value was not
    the id of an active item. *)
Theorem add_then_archive (now : Z) (s : Store) :
  ~ invalidDraft (newItem s) ->
  ~ collides toLowerCase (Draft.nome (newItem s)) (items s) ->
  freshClock s now ->
  let s' := archiveItem now (addItem toLowerCase now s) in
  items s' = items s
  /\ archivedItems s' = archivedItems s ++ [withId now (newItem s)]
  /\ calculateTotal s' = calculateTotal s.
Proof.
  intros Hv Hc Hfresh. cbv zeta.
  rewrite (addItem_accepted toLowerCase now s Hv Hc).
  assert (Hother : forall j, In j (items s) -> Item.id j <> now).
  { intros j Hj Heq. apply Hfresh. rewrite <- Heq. now apply in_map. }
  unfold archiveItem. simpl items.
  rewrite (find_by_id_snoc now (items s) (withId now (newItem s)) Hother eq_refl).
  unfold calculateTotal. simpl.
  rewrite filter_app, (filter_other_ids_all now (items s) Hother).
  simpl. rewrite Z.eqb_refl. simpl. rewrite app_nil_r. auto.
Qed.

(** X7.  Opening the card of an active item and saving it unchanged does
    what cancelling does (the lists stay, no alert is shown), provided the
    ids and the case-insensitive names of the active list are pairwise
    different. *)
Theorem save_unchanged_is_cancel (s : Store) (item : Item.t) :
  In item (items s) ->
  idsUnique (items s) ->
  namesUnique toLowerCase (items s) ->
  saveEdit toLowerCase (startEditing item s) = cancelEdit s.
Proof.
  intros Hin Hids Hnames.
  assert (Hc : ~ collidesWithOther toLowerCase (Item.id item) (Item.nome item)
                   (items (startEditing item s))).
  { simpl. intros (j & Hj & Hid & Hn). apply Hid. f_equal.
    exact (NoDup_map_inj _ _ (fun i => toLowerCase (Item.nome i)) (items s) j item
             Hnames Hj Hin Hn). }
  rewrite (saveEdit_accepted toLowerCase (startEditing item s) item eq_refl Hc).
  simpl items. rewrite (replaceById_self item (items s) Hids Hin).
  reflexivity.
Qed.

(** X8.  After an accepted add the total is the total from before plus
    price times quantity of the draft, in the arithmetic of JavaScript
    numbers. *)
Theorem total_after_add (now : Z) (s : Store) :
  ~ invalidDraft (newItem s) ->
  ~ collides toLowerCase (Draft.nome (newItem s)) (items s) ->
  calculateTotal (addItem toLowerCase now s)
  = PrimFloat.add (calculateTotal s)
      (PrimFloat.mul (Draft.preco (newItem s)) (Draft.quantidade (newItem s))).
Proof.
  intros Hv Hc. rewrite (addItem_accepted toLowerCase now s Hv Hc).
  unfold calculateTotal. simpl items. rewrite fold_left_app. reflexivity.
Qed.

(** X9.  [addItem] never puts an item with an empty name or with a price
    <= 0 into the active list, nor one whose name collides with an item
    already there: an item of the active list after the call was there
    before, or is the draft stamped with the clock value and passes all
    three tests. *)
Theorem added_item_is_valid (now : Z) (s : Store) (item : Item.t) :
  In item (items (addItem toLowerCase now s)) ->
  In item (items s)
  \/ (item = withId now (newItem s)
      /\ Item.nome item <> EmptyString
      /\ PrimFloat.leb (Item.preco item) 0%float = false
      /\ ~ collides toLowerCase (Item.nome item) (items s)).
Proof.
  intros Hin.
  destruct (invalidDraft_dec (newItem s)) as [Hv|Hv].
  - left. now rewrite (addItem_invalid toLowerCase now s Hv) in Hin.
  - destruct (collides_dec toLowerCase (Draft.nome (newItem s)) (items s)) as [Hc|Hc].
    + left. now rewrite (addItem_duplicate toLowerCase now s Hv Hc) in Hin.
    + rewrite (addItem_accepted toLowerCase now s Hv Hc) in Hin. simpl in Hin.
      apply in_app_or in Hin. destruct Hin as [Hin|[<-|[]]]; [now left|].
      right. simpl. repeat split; auto.
      * intros Hn. apply Hv. now left.
      * destruct (PrimFloat.leb (Draft.preco (newItem s)) 0%float) eqn:Hp; auto.
        exfalso. apply Hv. now right.
Qed.

(** X12.  A second [addItem] straight after a first adds nothing: the first
    call either rejected the draft, and the second rejects it again, or it
    reset the draft, whose empty name the second call rejects.  Either way
    the second call leaves both lists as the first left them and shows an
    alert. *)
Theorem second_add_adds_nothing (now now' : Z) (s : Store) :
  let s1 := addItem toLowerCase now s in
  let s2 := addItem toLowerCase now' s1 in
  items s2 = items s1
  /\ archivedItems s2 = archivedItems s1
  /\ exists m, alert s2 = Some m.
Proof.
  cbv zeta.
  assert (Hrej : forall st, invalidDraft (newItem st)
                            \/ collides toLowerCase (Draft.nome (newItem st)) (items st) ->
                 exists m, addItem toLowerCase now' st = showAlert m st).
  { intros st [Hv|Hc].
    - exists msgValidation. now apply addItem_invalid.
    - destruct (invalidDraft_dec (newItem st)) as [Hv|Hv].
      + exists msgValidation. now apply addItem_invalid.
      + exists msgDuplicate. now apply addItem_duplicate. }
  assert (Hs1 : invalidDraft (newItem (addItem toLowerCase now s))
                \/ collides toLowerCase (Draft.nome (newItem (addItem toLowerCase now s)))
                     (items (addItem toLowerCase now s))).
  { destruct (invalidDraft_dec (newItem s)) as [Hv|Hv].
    - rewrite (addItem_invalid toLowerCase now s Hv). now left.
    - destruct (collides_dec toLowerCase (Draft.nome (newItem s)) (items s)) as [Hc|Hc].
      + rewrite (addItem_duplicate toLowerCase now s Hv Hc). now right.
      + rewrite (addItem_accepted toLowerCase now s Hv Hc). left. now left. }
  destruct (Hrej _ Hs1) as (m & ->). simpl.
  split; [reflexivity|]. split; [reflexivity|]. now exists m.
Qed.

(** X13.  [saveEdit] is idempotent: a second call straight after a first
    changes nothing.  A rejected save stays rejected with the same alert,
    and an accepted one has closed the edit session. *)
Theorem second_save_changes_nothing (s : Store) :
  saveEdit toLowerCase (saveEdit toLowerCase s) = saveEdit toLowerCase s.
Proof.
  destruct (editingItem s) as [e|] eqn:Hed.
  - destruct (existsb (fun item => negb (Item.id item =? Item.id e)%Z
                                   && sameName toLowerCase (Item.nome item) (Item.nome e))
                      (items s)) eqn:Hex.
    + apply collidesWithOther_test in Hex.
      rewrite (saveEdit_duplicate toLowerCase s e Hed Hex).
      now rewrite (saveEdit_duplicate toLowerCase (showAlert msgDuplicateEdit s) e Hed Hex).
    + assert (Hc : ~ collidesWithOther toLowerCase (Item.id e) (Item.nome e) (items s)).
      { intros H. apply collidesWithOther_test in H. congruence. }
      rewrite (saveEdit_accepted toLowerCase s e Hed Hc).
      apply saveEdit_idle. reflexivity.
  - now rewrite !(saveEdit_idle toLowerCase s Hed).
Qed.

(** X14.  Nothing comes back from the archive: an item of the active list
    after an event was in the active list before it, or is the new-item
    draft that [addItem] stamped, or is the edit draft that [saveEdit]
    committed. *)
Theorem active_item_origin (ev : Event) (s : Store) (i : Item.t) :
  In i (items (dispatch toLowerCase ev s)) ->
  In i (items s)
  \/ (exists now, ev = EvAddItem now /\ i = withId now (newItem s))
  \/ (ev = EvSaveEdit /\ editingItem s = Some i).
Proof.
  intros Hin. destruct ev as [c|now|id|item|c| | | | ]; simpl in Hin; auto.
  - destruct (addItem_items toLowerCase now s) as [Heq|[_ Heq]];
      rewrite Heq in Hin; auto.
    apply in_app_or in Hin. destruct Hin as [Hin|[<-|[]]]; auto.
    right. left. now exists now.
  - left. unfold archiveItem in Hin. destruct (find _ _); simpl in Hin; auto.
    apply filter_In in Hin. tauto.
  - left. unfold changeEditingItem in Hin. now destruct (editingItem s).
  - destruct (saveEdit_items toLowerCase s) as [Heq|(e & He & _ & Heq)];
      rewrite Heq in Hin; auto.
    apply replaceById_in in Hin. destruct Hin as [->|Hin]; auto.
Qed.

End Composition.

(** ** The alert timer *)

(** X10.  An alert shown while no callback is due before [later] is still
    showing at [later] if less than 3000 ms have passed, and it is cleared
    once 3000 ms have passed. *)
Theorem alert_lasts_three_seconds (now later : Z) (m : string) (t : Timed) :
  (now <= later)%Z ->
  (forall due, In due (timers t) -> (later < due)%Z) ->
  ((later < now + 3000)%Z ->
   alert (store (runDue later (showAlertAt now m t))) = Some m)
  /\ ((now + 3000 <= later)%Z ->
      alert (store (runDue later (showAlertAt now m t))) = None).
Proof.
  intros Hle Hnone. unfold runDue, showAlertAt. simpl timers. simpl store.
  rewrite existsb_app. simpl.
  assert (Hold : existsb (fun due => (due <=? later)%Z) (timers t) = false).
  { destruct (existsb _ _) eqn:He; [|reflexivity].
    apply existsb_exists in He. destruct He as (due & Hin & Hdue).
    apply Hnone in Hin. apply Z.leb_le in Hdue. lia. }
  rewrite Hold. simpl. split; intros H.
  - assert (Hn : (now + 3000 <=? later)%Z = false) by (apply Z.leb_gt; lia).
    rewrite Hn. reflexivity.
  - assert (Hn : (now + 3000 <=? later)%Z = true) by (apply Z.leb_le; lia).
    rewrite Hn. reflexivity.
Qed.

(** X11.  [showAlert] does not cancel the callback of an earlier alert: when
    a second alert is shown less than 3000 ms after a first, the callback
    of the first clears the second message 3000 ms after the first was
    shown, while the callback of the second is still pending. *)
Theorem earlier_timer_clears_later_alert (now1 now2 : Z) (m1 m2 : string) (t : Timed) :
  (now1 < now2 < now1 + 3000)%Z ->
  let shown := showAlertAt now2 m2 (showAlertAt now1 m1 t) in
  alert (store shown) = Some m2
  /\ alert (store (runDue (now1 + 3000) shown)) = None
  /\ In (now2 + 3000)%Z (timers (runDue (now1 + 3000) shown)).
Proof.
  intros Hlt. cbv zeta. unfold runDue, showAlertAt. simpl timers. simpl store.
  split; [reflexivity|].
  assert (He : existsb (fun due => (due <=? now1 + 3000)%Z)
                 ((timers t ++ [(now1 + 3000)%Z]) ++ [(now2 + 3000)%Z]) = true).
  { rewrite !existsb_app. simpl. rewrite Z.leb_refl.
    now rewrite orb_true_r. }
  rewrite He. simpl. split; [reflexivity|].
  apply filter_In. split.
  - apply in_or_app. right. now left.
  - apply negb_true_iff, Z.leb_gt. lia.
Qed.

(** ** The further properties at work on the sample sessions *)

Lemma viewSession_reachable :
  viewReachable asciiToLowerCase (run asciiToLowerCase viewSession initialStore).
Proof.
  apply viewReachable_run; [constructor|].
  unfold viewSession. view_along.
Qed.

Lemma viewEditing_reachable :
  viewReachable asciiToLowerCase (run asciiToLowerCase viewEditing initialStore).
Proof.
  apply viewReachable_run; [constructor|].
  unfold viewEditing, viewSession. view_along.
Qed.

(** X2, witness: the quantity typed as 0 was added as 1, edited to 3 and
    archived so. *)
Lemma view_quantities_clamped_witness :
  let s := run asciiToLowerCase viewSession initialStore in
  archivedItems s = [Item.mk 1000 "Milk" 3%float 3.5%float "Bebidas" EmptyString]
  /\ quantityOk (Draft.quantidade (newItem s))
  /\ quantityOk 3%float.
Proof.
  cbv zeta.
  destruct (view_quantities_clamped asciiToLowerCase
              (run asciiToLowerCase viewSession initialStore) viewSession_reachable)
    as (Hdraft & _ & Hitems).
  split; [vm_compute; reflexivity|]. split; [exact Hdraft|].
  apply (Hitems (Item.mk 1000 "Milk" 3%float 3.5%float "Bebidas" EmptyString)).
  vm_compute. now left.
Defined.

(** X3, witness: the archived milk is in the category of drinks. *)
Lemma view_categories_listed_witness :
  let s := run asciiToLowerCase viewSession initialStore in
  In (Draft.categoria (newItem s)) (EmptyString :: CATEGORIAS)
  /\ In "Bebidas"%string (EmptyString :: CATEGORIAS).
Proof.
  cbv zeta.
  destruct (view_categories_listed asciiToLowerCase
              (run asciiToLowerCase viewSession initialStore) viewSession_reachable)
    as (Hdraft & _ & Hitems).
  split; [exact Hdraft|].
  apply (Hitems (Item.mk 1000 "Milk" 3%float 3.5%float "Bebidas" EmptyString)).
  vm_compute. now left.
Defined.

(** X4, witness: while the milk card is open, the milk is in the list. *)
Lemma view_edit_is_of_active_item_witness :
  let s := run asciiToLowerCase viewEditing initialStore in
  let e := Item.mk 1000 "Milk" 3%float 3.5%float "Bebidas" EmptyString in
  (exists item, In item (items s) /\ Item.id item = 1000%Z)
  /\ (alert (saveEdit asciiToLowerCase s) = Some msgDuplicateEdit
      \/ In e (items (saveEdit asciiToLowerCase s))).
Proof.
  cbv zeta.
  apply (view_edit_is_of_active_item asciiToLowerCase
           (run asciiToLowerCase viewEditing initialStore)
           (Item.mk 1000 "Milk" 3%float 3.5%float "Bebidas" EmptyString)
           viewEditing_reachable).
  vm_compute. reflexivity.
Defined.

(** X6, witness: the eggs are added and archived at once; milk and bread
    stay and the total is 12 again. *)
Lemma add_then_archive_witness :
  let s := run asciiToLowerCase eggsTyped initialStore in
  let s' := archiveItem 3000 (addItem asciiToLowerCase 3000 s) in
  items s' = [milkItem; laterBread]
  /\ archivedItems s' = [Item.mk 3000 "Eggs" 12%float 0.5%float EmptyString EmptyString]
  /\ calculateTotal s' = 12%float.
Proof.
  cbv zeta.
  destruct (add_then_archive asciiToLowerCase 3000
              (run asciiToLowerCase eggsTyped initialStore))
    as (Hitems & Harch & Htotal).
  - intros H. apply invalidDraft_test in H. vm_compute in H. discriminate H.
  - intros H. apply collides_test in H. vm_compute in H. discriminate H.
  - fresh_here.
  - split; [exact Hitems|]. split; [exact Harch | exact Htotal].
Defined.

(** X7, witness: the bread card is opened and saved as it is. *)
Lemma save_unchanged_is_cancel_witness :
  let s := run asciiToLowerCase twoItems initialStore in
  saveEdit asciiToLowerCase (startEditing laterBread s) = cancelEdit s.
Proof.
  cbv zeta.
  apply (save_unchanged_is_cancel asciiToLowerCase
           (run asciiToLowerCase twoItems initialStore) laterBread).
  - vm_compute. auto.
  - unfold idsUnique. nodup_here.
  - unfold namesUnique. nodup_here.
Defined.

(** X8, witness: with milk and bread at 12, the eggs bring the total to
    18. *)
Lemma total_after_add_witness :
  calculateTotal (addItem asciiToLowerCase 3000
                    (run asciiToLowerCase eggsTyped initialStore)) = 18%float.
Proof.
  rewrite (total_after_add asciiToLowerCase 3000
             (run asciiToLowerCase eggsTyped initialStore)).
  - vm_compute. reflexivity.
  - intros H. apply invalidDraft_test in H. vm_compute in H. discriminate H.
  - intros H. apply collides_test in H. vm_compute in H. discriminate H.
Defined.

(** X9, witness: the eggs in the list after the add are the stamped
    draft. *)
Lemma added_item_is_valid_witness :
  let s := run asciiToLowerCase eggsTyped initialStore in
  let eggs := Item.mk 3000 "Eggs" 12%float 0.5%float EmptyString EmptyString in
  In eggs (items s)
  \/ (eggs = withId 3000 (newItem s)
      /\ Item.nome eggs <> EmptyString
      /\ PrimFloat.leb (Item.preco eggs) 0%float = false
      /\ ~ collides asciiToLowerCase (Item.nome eggs) (items s)).
Proof.
  cbv zeta.
  apply (added_item_is_valid asciiToLowerCase 3000
           (run asciiToLowerCase eggsTyped initialStore)).
  vm_compute. auto.
Defined.

(** X10, witness: an alert of the first render is there after one second
    and gone after three. *)
Lemma alert_lasts_three_seconds_witness :
  alert (store (runDue 1000 (showAlertAt 0 msgValidation firstRender))) = Some msgValidation
  /\ alert (store (runDue 3000 (showAlertAt 0 msgValidation firstRender))) = None.
Proof.
  split.
  - apply (alert_lasts_three_seconds 0 1000 msgValidation firstRender); [lia| |lia].
    intros due [].
  - apply (alert_lasts_three_seconds 0 3000 msgValidation firstRender); [lia| |lia].
    intros due [].
Defined.

(** X11, witness: a duplicate alert shown one second after a validation
    alert is gone two seconds later. *)
Lemma earlier_timer_clears_later_alert_witness :
  let shown := showAlertAt 1000 msgDuplicate (showAlertAt 0 msgValidation firstRender) in
  alert (store shown) = Some msgDuplicate
  /\ alert (store (runDue 3000 shown)) = None
  /\ In 4000%Z (timers (runDue 3000 shown)).
Proof.
  cbv zeta.
  apply (earlier_timer_clears_later_alert 0 1000 msgValidation msgDuplicate firstRender).
  lia.
Defined.

(** X14, witness: the bread roll in the list after the save is the edit
    draft. *)
Lemma active_item_origin_witness :
  let s := run asciiToLowerCase renameToRoll initialStore in
  let roll := Item.mk 2000 "Bread roll" 1%float (-1)%float EmptyString EmptyString in
  In roll (items s)
  \/ (exists now, EvSaveEdit = EvAddItem now /\ roll = withId now (newItem s))
  \/ (EvSaveEdit = EvSaveEdit /\ editingItem s = Some roll).
Proof.
  cbv zeta.
  apply (active_item_origin asciiToLowerCase EvSaveEdit
           (run asciiToLowerCase renameToRoll initialStore)).
  vm_compute. auto.
Defined.
